(** * liburing [src/setup.c]: ring set-up, tear-down and memlock sizing

    A shallow embedding of [setup.c].  Integers are [Z] with the C
    wrap-around written out ([u32], [u64]); the operating system (the
    [io_uring_setup] system call, [mmap], [munmap], [close], [malloc],
    [io_uring_register_probe], [sysconf]) is a [world] that is threaded
    through every call and that records what was asked of it. *)

From Stdlib Require Import ZArith List Lia Bool.
Import ListNotations.
Local Open Scope Z_scope.

(** ** Machine integers *)

(** [unsigned] and the bit pattern of an [int]: 32 bits. *)
Definition u32 (z : Z) : Z := z mod 2 ^ 32.

(** [size_t] and [unsigned long] on LP64: 64 bits. *)
Definition u64 (z : Z) : Z := z mod 2 ^ 64.

(** A [size_t] returned as [ssize_t]. *)
Definition s64 (z : Z) : Z :=
  let v := u64 z in if v <? 2 ^ 63 then v else v - 2 ^ 64.

(** ** Bit math *)

(** One [if (!(x & mask)) { x <<= s; r -= s; }] of [__fls].  The [int x]
    is held as its 32-bit two's-complement pattern, which is all that
    [!x], [x & mask] and [x <<= s] look at. *)
Definition fls_step (mask s : Z) (st : Z * Z) : Z * Z :=
  let '(x, r) := st in
  if Z.land x mask =? 0 then (u32 (Z.shiftl x s), r - s) else (x, r).

Definition __fls (x : Z) : Z :=
  if x =? 0 then 0
  else
    let st := (x, 32) in
    let st := fls_step 0xffff0000 16 st in
    let st := fls_step 0xff000000 8 st in
    let st := fls_step 0xf0000000 4 st in
    let st := fls_step 0xc0000000 2 st in
    let st := fls_step 0x80000000 1 st in
    snd st.

(** [return 1UL << __fls(depth - 1);] with the result narrowed to
    [unsigned]. *)
Definition roundup_pow2 (depth : Z) : Z :=
  u32 (u64 (Z.shiftl 1 (__fls (u32 (depth - 1))))).

(** [size--; size /= page_size; return __fls(size);]  The [size_t] is
    narrowed to the [int] parameter of [__fls].  [page_size] is an
    [unsigned]: the definition is meant for [0 < page_size < 2 ^ 32],
    and division by a zero [page_size] is undefined in C; the theorems
    below keep away from it. *)
Definition npages (size page_size : Z) : Z :=
  let size := u64 (size - 1) in
  let size := size / page_size in
  __fls (u32 size).

Definition KRING_SIZE : Z := 320.
Definition KERN_MAX_ENTRIES : Z := 32768.
Definition KERN_MAX_CQ_ENTRIES : Z := 2 * KERN_MAX_ENTRIES.

Definition EINVAL : Z := 22.
Definition ENOMEM : positive := 12%positive.

(** ** Kernel ABI

    [liburing/io_uring.h] fixes the feature and set-up flag bits, the
    three [mmap] offsets and the sizes of the two record types.  They are
    taken as given; [linux_abi] below holds the values of the Linux
    header. *)
Class KernelAbi : Type := {
  IORING_FEAT_SINGLE_MMAP : Z;
  IORING_FEAT_NATIVE_WORKERS : Z;
  IORING_SETUP_CQSIZE : Z;
  IORING_SETUP_CLAMP : Z;
  IORING_OFF_SQ_RING : Z;
  IORING_OFF_CQ_RING : Z;
  IORING_OFF_SQES : Z;
  sizeof_sqe : Z;
  sizeof_cqe : Z;
  sizeof_probe : Z;
  sizeof_probe_op : Z
}.

Definition linux_abi : KernelAbi := {|
  IORING_FEAT_SINGLE_MMAP := 1;
  IORING_FEAT_NATIVE_WORKERS := 512;
  IORING_SETUP_CQSIZE := 8;
  IORING_SETUP_CLAMP := 16;
  IORING_OFF_SQ_RING := 0;
  IORING_OFF_CQ_RING := 0x8000000;
  IORING_OFF_SQES := 0x10000000;
  sizeof_sqe := 64;
  sizeof_cqe := 16;
  sizeof_probe := 16;
  sizeof_probe_op := 8
|}.

Definition sizeof_unsigned : Z := 4.

(** [word & bit] read as a C condition. *)
Definition has_flag (word bit : Z) : bool := negb (Z.land word bit =? 0).

(** ** Structures

    Modelled from the spec: [liburing.h] and [liburing/io_uring.h], which
    declare these structures, are not among the sources.  The records
    hold the attributes the data model of the specification lists for
    the layout description, the two side descriptors and the ring
    handle, under the field names [setup.c] uses for them. *)

Record io_sqring_offsets : Type := {
  sqo_head : Z; sqo_tail : Z; sqo_ring_mask : Z; sqo_ring_entries : Z;
  sqo_flags : Z; sqo_dropped : Z; sqo_array : Z
}.

Record io_cqring_offsets : Type := {
  cqo_head : Z; cqo_tail : Z; cqo_ring_mask : Z; cqo_ring_entries : Z;
  cqo_overflow : Z; cqo_cqes : Z; cqo_flags : Z
}.

Record io_uring_params : Type := {
  sq_entries : Z;
  cq_entries : Z;
  p_flags : Z;
  features : Z;
  sq_off : io_sqring_offsets;
  cq_off : io_cqring_offsets
}.

(** Pointers are integers: [NULL] is 0 and [MAP_FAILED] is [(void * ) -1]. *)
Definition NULL : Z := 0.
Definition MAP_FAILED : Z := -1.

Record io_uring_sq : Type := {
  sq_khead : Z; sq_ktail : Z; sq_kring_mask : Z; sq_kring_entries : Z;
  sq_kflags : Z; sq_kdropped : Z; sq_array : Z; sq_sqes : Z;
  sq_ring_sz : Z; sq_ring_ptr : Z
}.

Record io_uring_cq : Type := {
  cq_khead : Z; cq_ktail : Z; cq_kring_mask : Z; cq_kring_entries : Z;
  cq_kflags : Z; cq_koverflow : Z; cq_cqes : Z;
  cq_ring_sz : Z; cq_ring_ptr : Z
}.

Record io_uring : Type := {
  sq : io_uring_sq;
  cq : io_uring_cq;
  ring_flags : Z;
  ring_fd : Z;
  ring_features : Z
}.

Definition zero_sqring_offsets : io_sqring_offsets :=
  {| sqo_head := 0; sqo_tail := 0; sqo_ring_mask := 0; sqo_ring_entries := 0;
     sqo_flags := 0; sqo_dropped := 0; sqo_array := 0 |}.

Definition zero_cqring_offsets : io_cqring_offsets :=
  {| cqo_head := 0; cqo_tail := 0; cqo_ring_mask := 0; cqo_ring_entries := 0;
     cqo_overflow := 0; cqo_cqes := 0; cqo_flags := 0 |}.

(** [struct io_uring_params lp = { };] *)
Definition zero_params : io_uring_params :=
  {| sq_entries := 0; cq_entries := 0; p_flags := 0; features := 0;
     sq_off := zero_sqring_offsets; cq_off := zero_cqring_offsets |}.

Definition zero_sq : io_uring_sq :=
  {| sq_khead := 0; sq_ktail := 0; sq_kring_mask := 0; sq_kring_entries := 0;
     sq_kflags := 0; sq_kdropped := 0; sq_array := 0; sq_sqes := 0;
     sq_ring_sz := 0; sq_ring_ptr := 0 |}.

Definition zero_cq : io_uring_cq :=
  {| cq_khead := 0; cq_ktail := 0; cq_kring_mask := 0; cq_kring_entries := 0;
     cq_kflags := 0; cq_koverflow := 0; cq_cqes := 0;
     cq_ring_sz := 0; cq_ring_ptr := 0 |}.

(** [memset(ring, 0, sizeof( *ring))] *)
Definition zero_ring : io_uring :=
  {| sq := zero_sq; cq := zero_cq; ring_flags := 0; ring_fd := 0;
     ring_features := 0 |}.

Definition set_sq_ring_sz (s : io_uring_sq) (v : Z) : io_uring_sq :=
  {| sq_khead := sq_khead s; sq_ktail := sq_ktail s;
     sq_kring_mask := sq_kring_mask s; sq_kring_entries := sq_kring_entries s;
     sq_kflags := sq_kflags s; sq_kdropped := sq_kdropped s;
     sq_array := sq_array s; sq_sqes := sq_sqes s;
     sq_ring_sz := v; sq_ring_ptr := sq_ring_ptr s |}.

Definition set_sq_ring_ptr (s : io_uring_sq) (v : Z) : io_uring_sq :=
  {| sq_khead := sq_khead s; sq_ktail := sq_ktail s;
     sq_kring_mask := sq_kring_mask s; sq_kring_entries := sq_kring_entries s;
     sq_kflags := sq_kflags s; sq_kdropped := sq_kdropped s;
     sq_array := sq_array s; sq_sqes := sq_sqes s;
     sq_ring_sz := sq_ring_sz s; sq_ring_ptr := v |}.

Definition set_sq_sqes (s : io_uring_sq) (v : Z) : io_uring_sq :=
  {| sq_khead := sq_khead s; sq_ktail := sq_ktail s;
     sq_kring_mask := sq_kring_mask s; sq_kring_entries := sq_kring_entries s;
     sq_kflags := sq_kflags s; sq_kdropped := sq_kdropped s;
     sq_array := sq_array s; sq_sqes := v;
     sq_ring_sz := sq_ring_sz s; sq_ring_ptr := sq_ring_ptr s |}.

(** Lines 57-63: every submission-side pointer is [ring_ptr] plus the
    offset the kernel reported. *)
Definition resolve_sq (s : io_uring_sq) (o : io_sqring_offsets) : io_uring_sq :=
  {| sq_khead := sq_ring_ptr s + sqo_head o;
     sq_ktail := sq_ring_ptr s + sqo_tail o;
     sq_kring_mask := sq_ring_ptr s + sqo_ring_mask o;
     sq_kring_entries := sq_ring_ptr s + sqo_ring_entries o;
     sq_kflags := sq_ring_ptr s + sqo_flags o;
     sq_kdropped := sq_ring_ptr s + sqo_dropped o;
     sq_array := sq_ring_ptr s + sqo_array o;
     sq_sqes := sq_sqes s;
     sq_ring_sz := sq_ring_sz s; sq_ring_ptr := sq_ring_ptr s |}.

Definition set_cq_ring_sz (c : io_uring_cq) (v : Z) : io_uring_cq :=
  {| cq_khead := cq_khead c; cq_ktail := cq_ktail c;
     cq_kring_mask := cq_kring_mask c; cq_kring_entries := cq_kring_entries c;
     cq_kflags := cq_kflags c; cq_koverflow := cq_koverflow c;
     cq_cqes := cq_cqes c;
     cq_ring_sz := v; cq_ring_ptr := cq_ring_ptr c |}.

Definition set_cq_ring_ptr (c : io_uring_cq) (v : Z) : io_uring_cq :=
  {| cq_khead := cq_khead c; cq_ktail := cq_ktail c;
     cq_kring_mask := cq_kring_mask c; cq_kring_entries := cq_kring_entries c;
     cq_kflags := cq_kflags c; cq_koverflow := cq_koverflow c;
     cq_cqes := cq_cqes c;
     cq_ring_sz := cq_ring_sz c; cq_ring_ptr := v |}.

(** Lines 76-83: the completion-side pointers; [kflags] only when the
    kernel reports an offset for it. *)
Definition resolve_cq (c : io_uring_cq) (o : io_cqring_offsets) : io_uring_cq :=
  {| cq_khead := cq_ring_ptr c + cqo_head o;
     cq_ktail := cq_ring_ptr c + cqo_tail o;
     cq_kring_mask := cq_ring_ptr c + cqo_ring_mask o;
     cq_kring_entries := cq_ring_ptr c + cqo_ring_entries o;
     cq_kflags := if cqo_flags o =? 0 then cq_kflags c
                  else cq_ring_ptr c + cqo_flags o;
     cq_koverflow := cq_ring_ptr c + cqo_overflow o;
     cq_cqes := cq_ring_ptr c + cqo_cqes o;
     cq_ring_sz := cq_ring_sz c; cq_ring_ptr := cq_ring_ptr c |}.

Definition set_features (r : io_uring) (v : Z) : io_uring :=
  {| sq := sq r; cq := cq r; ring_flags := ring_flags r; ring_fd := ring_fd r;
     ring_features := v |}.

(** ** The operating system

    What the kernel and the C library answer is not decided by [setup.c]:
    each call takes its answer from a list of outcomes held by the world,
    one list per entry point, consumed in call order.  An [errno] is a
    [positive], a descriptor an [N] and a mapped or allocated address a
    [positive], as POSIX has them. *)

Inductive setup_outcome : Type :=
| SetupOk (fd : N) (resolved : io_uring_params)
| SetupFail (e : positive).

Inductive mmap_outcome : Type :=
| MmapOk (addr : positive)
| MmapFail (e : positive).

Inductive event : Type :=
| EvSetup (entries flags ret : Z)
| EvMmap (len fd off ret : Z)
| EvMunmap (addr len : Z)
| EvClose (fd : Z)
| EvMalloc (len ret : Z)
| EvFree (ptr : Z)
| EvRegisterProbe (fd probe nr ret : Z).

Record world : Type := {
  setup_oracle : list setup_outcome;
  mmap_oracle : list mmap_outcome;
  malloc_oracle : list (option positive);
  probe_oracle : list Z;
  pagesize : Z;               (* what [sysconf(_SC_PAGESIZE)] returns *)
  shared : Z -> Z;            (* the [unsigned] behind a pointer into a ring *)
  errno : Z;
  mappings : list (Z * Z);    (* live mappings, base and length *)
  fds : list Z;               (* open descriptors *)
  trace : list event          (* calls made so far, oldest first *)
}.

Definition M (A : Type) : Type := world -> A * world.

Definition ret {A : Type} (a : A) : M A := fun w => (a, w).

Definition bind {A B : Type} (m : M A) (k : A -> M B) : M B :=
  fun w => let (a, w') := m w in k a w'.

Notation "x <- m ;; k" := (bind m (fun x => k))
  (at level 61, m at next level, right associativity).
Notation "' pat <- m ;; k" := (bind m (fun x => match x with pat => k end))
  (at level 61, pat pattern, m at next level, right associativity).
Notation "m ;; k" := (bind m (fun _ => k))
  (at level 61, right associativity).

Definition mapping_eqb (a b : Z * Z) : bool :=
  (fst a =? fst b) && (snd a =? snd b).

(** A call that fails: [errno] is set and the call is recorded. *)
Definition fail_with (e : positive) (ev : event) (w : world) : world :=
  {| setup_oracle := setup_oracle w; mmap_oracle := mmap_oracle w;
     malloc_oracle := malloc_oracle w; probe_oracle := probe_oracle w;
     pagesize := pagesize w; shared := shared w; errno := Zpos e;
     mappings := mappings w; fds := fds w; trace := trace w ++ [ev] |}.

Definition log (ev : event) (w : world) : world :=
  {| setup_oracle := setup_oracle w; mmap_oracle := mmap_oracle w;
     malloc_oracle := malloc_oracle w; probe_oracle := probe_oracle w;
     pagesize := pagesize w; shared := shared w; errno := errno w;
     mappings := mappings w; fds := fds w; trace := trace w ++ [ev] |}.

Definition set_setup_oracle (l : list setup_outcome) (w : world) : world :=
  {| setup_oracle := l; mmap_oracle := mmap_oracle w;
     malloc_oracle := malloc_oracle w; probe_oracle := probe_oracle w;
     pagesize := pagesize w; shared := shared w; errno := errno w;
     mappings := mappings w; fds := fds w; trace := trace w |}.

Definition set_mmap_oracle (l : list mmap_outcome) (w : world) : world :=
  {| setup_oracle := setup_oracle w; mmap_oracle := l;
     malloc_oracle := malloc_oracle w; probe_oracle := probe_oracle w;
     pagesize := pagesize w; shared := shared w; errno := errno w;
     mappings := mappings w; fds := fds w; trace := trace w |}.

Definition set_malloc_oracle (l : list (option positive)) (w : world) : world :=
  {| setup_oracle := setup_oracle w; mmap_oracle := mmap_oracle w;
     malloc_oracle := l; probe_oracle := probe_oracle w;
     pagesize := pagesize w; shared := shared w; errno := errno w;
     mappings := mappings w; fds := fds w; trace := trace w |}.

Definition set_probe_oracle (l : list Z) (w : world) : world :=
  {| setup_oracle := setup_oracle w; mmap_oracle := mmap_oracle w;
     malloc_oracle := malloc_oracle w; probe_oracle := l;
     pagesize := pagesize w; shared := shared w; errno := errno w;
     mappings := mappings w; fds := fds w; trace := trace w |}.

Definition set_mappings (l : list (Z * Z)) (w : world) : world :=
  {| setup_oracle := setup_oracle w; mmap_oracle := mmap_oracle w;
     malloc_oracle := malloc_oracle w; probe_oracle := probe_oracle w;
     pagesize := pagesize w; shared := shared w; errno := errno w;
     mappings := l; fds := fds w; trace := trace w |}.

Definition set_fds (l : list Z) (w : world) : world :=
  {| setup_oracle := setup_oracle w; mmap_oracle := mmap_oracle w;
     malloc_oracle := malloc_oracle w; probe_oracle := probe_oracle w;
     pagesize := pagesize w; shared := shared w; errno := errno w;
     mappings := mappings w; fds := l; trace := trace w |}.

(** Modelled from the spec: [syscall.c] is not among the sources.  The
    channel-open call returns a live descriptor and writes the resolved
    parameters to [*p], or returns -1 with [errno] set to the kernel's
    error code.  A world that has no answer left is out of memory. *)
Definition __sys_io_uring_setup (entries : Z) (p : io_uring_params)
  : M (Z * io_uring_params) := fun w =>
  match setup_oracle w with
  | SetupOk fd resolved :: rest =>
      ((Z.of_N fd, resolved),
       log (EvSetup entries (p_flags p) (Z.of_N fd))
         (set_fds (Z.of_N fd :: fds w) (set_setup_oracle rest w)))
  | SetupFail e :: rest =>
      ((-1, p),
       fail_with e (EvSetup entries (p_flags p) (-1)) (set_setup_oracle rest w))
  | [] => ((-1, p), fail_with ENOMEM (EvSetup entries (p_flags p) (-1)) w)
  end.

(** [mmap(0, len, PROT_READ | PROT_WRITE, MAP_SHARED | MAP_POPULATE, fd, off)] *)
Definition mmap (len fd off : Z) : M Z := fun w =>
  match mmap_oracle w with
  | MmapOk addr :: rest =>
      (Zpos addr,
       log (EvMmap len fd off (Zpos addr))
         (set_mappings (mappings w ++ [(Zpos addr, len)])
            (set_mmap_oracle rest w)))
  | MmapFail e :: rest =>
      (MAP_FAILED,
       fail_with e (EvMmap len fd off MAP_FAILED) (set_mmap_oracle rest w))
  | [] => (MAP_FAILED, fail_with ENOMEM (EvMmap len fd off MAP_FAILED) w)
  end.

(** [munmap(addr, len)]: the mapping made at [addr] with that length is
    gone; the result is not looked at by [setup.c]. *)
Definition munmap (addr len : Z) : M unit := fun w =>
  (tt,
   log (EvMunmap addr len)
     (set_mappings
        (filter (fun m => negb (mapping_eqb m (addr, len))) (mappings w)) w)).

Definition close (fd : Z) : M unit := fun w =>
  (tt, log (EvClose fd) (set_fds (filter (fun d => negb (d =? fd)) (fds w)) w)).

Definition malloc (len : Z) : M Z := fun w =>
  match malloc_oracle w with
  | Some a :: rest =>
      (Zpos a, log (EvMalloc len (Zpos a)) (set_malloc_oracle rest w))
  | None :: rest => (NULL, log (EvMalloc len NULL) (set_malloc_oracle rest w))
  | [] => (NULL, log (EvMalloc len NULL) w)
  end.

Definition free (ptr : Z) : M unit := fun w => (tt, log (EvFree ptr) w).

(** Modelled from the spec: [register.c] is not among the sources.  The
    registration-style query against the handle's descriptor returns what
    the kernel answers, negative on failure. *)
Definition io_uring_register_probe (ring : io_uring) (probe nr : Z) : M Z :=
  fun w =>
  match probe_oracle w with
  | r :: rest =>
      (r, log (EvRegisterProbe (ring_fd ring) probe nr r)
            (set_probe_oracle rest w))
  | [] => (-1, log (EvRegisterProbe (ring_fd ring) probe nr (-1)) w)
  end.

Definition get_errno : M Z := fun w => (errno w, w).

Definition sysconf_SC_PAGESIZE : M Z := fun w => (pagesize w, w).

(** [*ptr] for a [unsigned *] into a mapped ring. *)
Definition load (ptr : Z) : M Z := fun w => (u32 (shared w ptr), w).

(** ** [setup.c] *)

Section Setup.
Context {abi : KernelAbi}.

Definition io_uring_unmap_rings (sq : io_uring_sq) (cq : io_uring_cq) : M unit :=
  munmap (sq_ring_ptr sq) (sq_ring_sz sq) ;;
  if negb (cq_ring_ptr cq =? NULL) && negb (cq_ring_ptr cq =? sq_ring_ptr sq)
  then munmap (cq_ring_ptr cq) (cq_ring_sz cq)
  else ret tt.

Definition io_uring_mmap (fd : Z) (p : io_uring_params)
    (sq : io_uring_sq) (cq : io_uring_cq) : M (Z * io_uring_sq * io_uring_cq) :=
  let sq := set_sq_ring_sz sq
              (u64 (sqo_array (sq_off p) + u64 (sq_entries p * sizeof_unsigned))) in
  let cq := set_cq_ring_sz cq
              (u64 (cqo_cqes (cq_off p) + u64 (cq_entries p * sizeof_cqe))) in
  let sq := if has_flag (features p) IORING_FEAT_SINGLE_MMAP
            then if sq_ring_sz sq <? cq_ring_sz cq
                 then set_sq_ring_sz sq (cq_ring_sz cq) else sq
            else sq in
  let cq := if has_flag (features p) IORING_FEAT_SINGLE_MMAP
            then set_cq_ring_sz cq (sq_ring_sz sq) else cq in
  ptr <- mmap (sq_ring_sz sq) fd IORING_OFF_SQ_RING ;;
  let sq := set_sq_ring_ptr sq ptr in
  if sq_ring_ptr sq =? MAP_FAILED then
    e <- get_errno ;; ret (- e, sq, cq)
  else
    (* the label [err] *)
    let err := fun (r : Z) (sq : io_uring_sq) (cq : io_uring_cq) =>
      io_uring_unmap_rings sq cq ;; ret (r, sq, cq) in
    (* line 57 to the end *)
    let rest := fun (sq : io_uring_sq) (cq : io_uring_cq) =>
      let sq := resolve_sq sq (sq_off p) in
      let size := u64 (sq_entries p * sizeof_sqe) in
      ptr <- mmap size fd IORING_OFF_SQES ;;
      let sq := set_sq_sqes sq ptr in
      if sq_sqes sq =? MAP_FAILED then
        e <- get_errno ;; err (- e) sq cq
      else
        ret (0, sq, resolve_cq cq (cq_off p)) in
    if has_flag (features p) IORING_FEAT_SINGLE_MMAP then
      rest sq (set_cq_ring_ptr cq (sq_ring_ptr sq))
    else
      ptr <- mmap (cq_ring_sz cq) fd IORING_OFF_CQ_RING ;;
      let cq := set_cq_ring_ptr cq ptr in
      if cq_ring_ptr cq =? MAP_FAILED then
        let cq := set_cq_ring_ptr cq NULL in
        e <- get_errno ;; err (- e) sq cq
      else rest sq cq.

(** [ring] is what the caller's structure held before the call. *)
Definition io_uring_queue_mmap (fd : Z) (p : io_uring_params) (ring : io_uring)
  : M (Z * io_uring) :=
  let ring := zero_ring in
  '(r, sq', cq') <- io_uring_mmap fd p (sq ring) (cq ring) ;;
  let ring := {| sq := sq'; cq := cq'; ring_flags := ring_flags ring;
                 ring_fd := ring_fd ring;
                 ring_features := ring_features ring |} in
  if r =? 0 then
    ret (r, {| sq := sq ring; cq := cq ring; ring_flags := p_flags p;
               ring_fd := fd; ring_features := ring_features ring |})
  else ret (r, ring).

Definition io_uring_queue_init_params (entries : Z) (ring : io_uring)
    (p : io_uring_params) : M (Z * io_uring * io_uring_params) :=
  '(fd, p) <- __sys_io_uring_setup entries p ;;
  if fd <? 0 then
    e <- get_errno ;; ret (- e, ring, p)
  else
    '(r, ring) <- io_uring_queue_mmap fd p ring ;;
    if negb (r =? 0) then
      close fd ;; ret (r, ring, p)
    else
      ret (0, set_features ring (features p), p).

Definition io_uring_queue_init (entries : Z) (ring : io_uring) (flags : Z)
  : M (Z * io_uring) :=
  let p := {| sq_entries := 0; cq_entries := 0; p_flags := flags;
              features := 0; sq_off := zero_sqring_offsets;
              cq_off := zero_cqring_offsets |} in
  '(r, ring, _) <- io_uring_queue_init_params entries ring p ;;
  ret (r, ring).

Definition io_uring_queue_exit (ring : io_uring) : M unit :=
  n <- load (sq_kring_entries (sq ring)) ;;
  munmap (sq_sqes (sq ring)) (u64 (n * sizeof_sqe)) ;;
  io_uring_unmap_rings (sq ring) (cq ring) ;;
  close (ring_fd ring).

Definition io_uring_get_probe_ring (ring : io_uring) : M Z :=
  let len := u64 (sizeof_probe + u64 (256 * sizeof_probe_op)) in
  probe <- malloc len ;;
  if probe =? NULL then ret NULL
  else
    r <- io_uring_register_probe ring probe 256 ;;
    if 0 <=? r then ret probe
    else free probe ;; ret NULL.

(** [ring] is the uninitialised local of the C function. *)
Definition io_uring_get_probe (ring : io_uring) : M Z :=
  '(r, ring) <- io_uring_queue_init 2 ring 0 ;;
  if r <? 0 then ret NULL
  else
    probe <- io_uring_get_probe_ring ring ;;
    io_uring_queue_exit ring ;;
    ret probe.

Definition rings_size (entries cq_entries page_size : Z) : Z :=
  let cq_size := KRING_SIZE in
  let cq_size := u64 (cq_size + u64 (cq_entries * sizeof_cqe)) in
  let cq_size := Z.land (u64 (cq_size + 63)) 0xffffffffffffffc0 in
  let pages := u64 (Z.shiftl 1 (npages cq_size page_size)) in
  let sq_size := u64 (sizeof_sqe * entries) in
  let pages := u64 (pages + u64 (Z.shiftl 1 (npages sq_size page_size))) in
  u64 (pages * page_size).

(** [ring] is the uninitialised local of the C function. *)
Definition io_uring_mlock_size_params (entries : Z) (p : io_uring_params)
    (ring : io_uring) : M Z :=
  '(r, ring, lp) <- io_uring_queue_init_params entries ring zero_params ;;
  if r <? 0 then ret r
  else
    io_uring_queue_exit ring ;;
    if has_flag (features lp) IORING_FEAT_NATIVE_WORKERS then ret 0
    else if entries =? 0 then ret (- EINVAL)
    else
      (* line 327 to the end *)
      let finish := fun entries cq_entries : Z =>
        page_size <- sysconf_SC_PAGESIZE ;;
        let page_size := if page_size <? 0 then 4096 else page_size in
        ret (s64 (rings_size entries cq_entries (u32 page_size))) in
      (* line 310 to the end *)
      let sized := fun entries : Z =>
        let entries := roundup_pow2 entries in
        if has_flag (p_flags p) IORING_SETUP_CQSIZE then
          if cq_entries p =? 0 then ret (- EINVAL)
          else
            let checked := fun cq_entries : Z =>
              let cq_entries := roundup_pow2 cq_entries in
              if cq_entries <? entries then ret (- EINVAL)
              else finish entries cq_entries in
            let cq_entries := cq_entries p in
            if KERN_MAX_CQ_ENTRIES <? cq_entries then
              if negb (has_flag (p_flags p) IORING_SETUP_CLAMP)
              then ret (- EINVAL)
              else checked KERN_MAX_CQ_ENTRIES
            else checked cq_entries
        else finish entries (u32 (2 * entries)) in
      if KERN_MAX_ENTRIES <? entries then
        if negb (has_flag (p_flags p) IORING_SETUP_CLAMP) then ret (- EINVAL)
        else sized KERN_MAX_ENTRIES
      else sized entries.

Definition io_uring_mlock_size (entries flags : Z) (ring : io_uring) : M Z :=
  let p := {| sq_entries := 0; cq_entries := 0; p_flags := flags;
              features := 0; sq_off := zero_sqring_offsets;
              cq_off := zero_cqring_offsets |} in
  io_uring_mlock_size_params entries p ring.

End Setup.

(** ** The sizing arithmetic, spelled out

    A second description of the sizing arithmetic, for comparison with
    [rings_size].  [ceil_div] is the number of whole pages that hold the
    bytes; [pageCountLog2] is its base-2 logarithm, rounded up, as the
    specification describes it; [whole_pages] is the power of two with
    that logarithm, which is at least the number of whole pages and
    exceeds it whenever that number is not a power of two. *)

Definition ceil_div (a b : Z) : Z := (a + b - 1) / b.

Definition pageCountLog2 (byteSize pageSize : Z) : Z :=
  Z.log2_up (ceil_div byteSize pageSize).

Definition whole_pages (byteSize pageSize : Z) : Z :=
  2 ^ pageCountLog2 byteSize pageSize.

Definition round_up_64 (x : Z) : Z := 64 * ceil_div x 64.

Section Estimate.
Context {abi : KernelAbi}.

Definition locked_bytes (sq_depth cq_depth page_size : Z) : Z :=
  (whole_pages (round_up_64 (320 + cq_depth * sizeof_cqe)) page_size
   + whole_pages (sq_depth * sizeof_sqe) page_size) * page_size.

(** The record sizes are positive and at most a page. *)
Definition abi_sizes_ok : Prop :=
  0 < sizeof_sqe <= 4096 /\ 0 < sizeof_cqe <= 4096.

End Estimate.

(** ** Reading a trace *)

(** The mapping a call established, if it is an [mmap] that succeeded. *)
Definition established (ev : event) : list (Z * Z) :=
  match ev with
  | EvMmap len _ _ r => if r =? MAP_FAILED then [] else [(r, len)]
  | _ => []
  end.

Definition is_mmap_call (ev : event) : bool :=
  match ev with EvMmap _ _ _ _ => true | _ => false end.

Definition unmap_call (m : Z * Z) : event := EvMunmap (fst m) (snd m).

(** Addresses the next [mmap] calls will hand out. *)
Fixpoint granted (l : list mmap_outcome) : list Z :=
  match l with
  | [] => []
  | MmapOk a :: t => Zpos a :: granted t
  | MmapFail _ :: t => granted t
  end.

Fixpoint distinct (l : list Z) : bool :=
  match l with
  | [] => true
  | a :: t => negb (existsb (Z.eqb a) t) && distinct t
  end.

(** The next [n] calls of [mmap] hand out addresses that are not the
    base of a live mapping, and no address twice. *)
Definition mmap_fresh (n : nat) (w : world) : bool :=
  let g := granted (firstn n (mmap_oracle w)) in
  distinct g
  && forallb (fun a => negb (existsb (Z.eqb a) (map fst (mappings w)))) g.

Section Teardown.
Context {abi : KernelAbi}.

(** The calls of [io_uring_queue_exit], in the order of lines 176-178 and
    21-23; [n] is the [unsigned] read through [sq->kring_entries]. *)
Definition teardown_calls (ring : io_uring) (n : Z) : list event :=
  [EvMunmap (sq_sqes (sq ring)) (u64 (n * sizeof_sqe));
   EvMunmap (sq_ring_ptr (sq ring)) (sq_ring_sz (sq ring))]
  ++ (if negb (cq_ring_ptr (cq ring) =? NULL)
         && negb (cq_ring_ptr (cq ring) =? sq_ring_ptr (sq ring))
      then [EvMunmap (cq_ring_ptr (cq ring)) (cq_ring_sz (cq ring))]
      else [])
  ++ [EvClose (ring_fd ring)].

(** The order the specification gives for the same calls: entry array,
    completion region when its base differs, submission region, close. *)
Definition teardown_calls_as_specified (ring : io_uring) (n : Z) : list event :=
  [EvMunmap (sq_sqes (sq ring)) (u64 (n * sizeof_sqe))]
  ++ (if negb (cq_ring_ptr (cq ring) =? sq_ring_ptr (sq ring))
      then [EvMunmap (cq_ring_ptr (cq ring)) (cq_ring_sz (cq ring))]
      else [])
  ++ [EvMunmap (sq_ring_ptr (sq ring)) (sq_ring_sz (sq ring));
      EvClose (ring_fd ring)].

(** The two region lengths as lines 32-33 compute them. *)
Definition sq_region_len (p : io_uring_params) : Z :=
  u64 (sqo_array (sq_off p) + u64 (sq_entries p * sizeof_unsigned)).

Definition cq_region_len (p : io_uring_params) : Z :=
  u64 (cqo_cqes (cq_off p) + u64 (cq_entries p * sizeof_cqe)).

Definition sqes_len (p : io_uring_params) : Z :=
  u64 (sq_entries p * sizeof_sqe).

End Teardown.

(** ** A kernel to run the code against

    The layout a 5.x kernel reports for eight submission entries, and a
    world that grants every request. *)

Definition demo_params (feat : Z) : io_uring_params :=
  {| sq_entries := 8; cq_entries := 16; p_flags := 0; features := feat;
     sq_off := {| sqo_head := 0; sqo_tail := 64; sqo_ring_mask := 256;
                  sqo_ring_entries := 264; sqo_flags := 276;
                  sqo_dropped := 272; sqo_array := 576 |};
     cq_off := {| cqo_head := 128; cqo_tail := 192; cqo_ring_mask := 260;
                  cqo_ring_entries := 268; cqo_overflow := 284;
                  cqo_cqes := 320; cqo_flags := 280 |} |}.

Definition demo_world (setups : list setup_outcome)
    (maps : list mmap_outcome) : world :=
  {| setup_oracle := setups; mmap_oracle := maps;
     malloc_oracle := [Some 100%positive]; probe_oracle := [0];
     pagesize := 4096;
     shared := fun a => if a mod 4096 =? 264 then 8 else 0;
     errno := 0; mappings := []; fds := [0; 1; 2]; trace := [] |}.

Definition granting_world (feat : Z) : world :=
  demo_world [SetupOk 3 (demo_params feat)]
             [MmapOk 4096; MmapOk 8192; MmapOk 12288].

(** ** Depth validation in the words of the specification

    Steps 3 to 6 of the estimator: a depth of 0 is rejected, a depth over
    its limit is rejected unless clamping is permitted and then replaced
    by the limit, and the result is rounded up to a power of two; the
    completion depth is the override, treated likewise and required to be
    no smaller than the submission depth, or twice the submission
    depth. *)

Definition clamp_depth (clamp : bool) (limit n : Z) : option Z :=
  if n =? 0 then None
  else if limit <? n then (if clamp then Some limit else None)
  else Some n.

Section Depths.
Context {abi : KernelAbi}.

Definition estimator_depths (entries : Z) (p : io_uring_params)
  : option (Z * Z) :=
  let clamp := has_flag (p_flags p) IORING_SETUP_CLAMP in
  match clamp_depth clamp KERN_MAX_ENTRIES entries with
  | None => None
  | Some e =>
      let sqd := roundup_pow2 e in
      if has_flag (p_flags p) IORING_SETUP_CQSIZE then
        match clamp_depth clamp KERN_MAX_CQ_ENTRIES (cq_entries p) with
        | None => None
        | Some c =>
            let cqd := roundup_pow2 c in
            if cqd <? sqd then None else Some (sqd, cqd)
        end
      else Some (sqd, 2 * sqd)
  end.

End Depths.

(** The page size the estimator works with: what the system reports, or
    4096 when it reports none. *)
Definition page_size_of (w : world) : Z :=
  if pagesize w <? 0 then 4096 else pagesize w.

(** What the next [malloc] and the next [io_uring_register_probe] of a
    world will return. *)
Definition peek_malloc (w : world) : Z :=
  match malloc_oracle w with Some a :: _ => Zpos a | _ => NULL end.

Definition peek_probe (w : world) : Z :=
  match probe_oracle w with r :: _ => r | [] => -1 end.

(** Caller options for the estimator: set-up flags and a completion
    size. *)
Definition params_with (flags cq : Z) : io_uring_params :=
  {| sq_entries := 0; cq_entries := cq; p_flags := flags; features := 0;
     sq_off := zero_sqring_offsets; cq_off := zero_cqring_offsets |}.

(** A world whose third [mmap], the one of the entry array, fails. *)
Definition sqes_failing_world : world :=
  demo_world [] [MmapOk 4096; MmapOk 8192; MmapFail ENOMEM].

(** A kernel that turns the set-up request down with [EINVAL]. *)
Definition rejecting_world : world := demo_world [SetupFail 22] [].

(** A kernel that is out of lockable memory. *)
Definition exhausted_world : world := demo_world [SetupFail ENOMEM] [].

(** ** The rest of [setup.c] *)

Section Rest.
Context {abi : KernelAbi}.

Definition io_uring_free_probe (probe : Z) : M unit := free probe.

End Rest.

(** ** Fork advice

    [io_uring_ring_dontfork] calls [madvise(..., MADV_DONTFORK)], which
    answers 0, or -1 with [errno] set.  Its answers come from a list of
    their own, [None] for success, next to the world of the other calls;
    every call is recorded with what it returned. *)

Record advice_world : Type := {
  host : world;
  madvise_oracle : list (option positive);
  madvise_calls : list (Z * Z * Z)     (* address, length, result *)
}.

Definition set_errno (e : Z) (w : world) : world :=
  {| setup_oracle := setup_oracle w; mmap_oracle := mmap_oracle w;
     malloc_oracle := malloc_oracle w; probe_oracle := probe_oracle w;
     pagesize := pagesize w; shared := shared w; errno := e;
     mappings := mappings w; fds := fds w; trace := trace w |}.

(** [madvise(addr, len, MADV_DONTFORK)] *)
Definition madvise (addr len : Z) (a : advice_world) : Z * advice_world :=
  match madvise_oracle a with
  | None :: rest =>
      (0, {| host := host a; madvise_oracle := rest;
             madvise_calls := madvise_calls a ++ [(addr, len, 0)] |})
  | Some e :: rest =>
      (-1, {| host := set_errno (Zpos e) (host a); madvise_oracle := rest;
              madvise_calls := madvise_calls a ++ [(addr, len, -1)] |})
  | [] =>
      (-1, {| host := set_errno (Zpos ENOMEM) (host a); madvise_oracle := [];
              madvise_calls := madvise_calls a ++ [(addr, len, -1)] |})
  end.

Section Dontfork.
Context {abi : KernelAbi}.

Definition io_uring_ring_dontfork (ring : io_uring) (a : advice_world)
  : Z * advice_world :=
  if (sq_ring_ptr (sq ring) =? NULL) || (sq_sqes (sq ring) =? NULL)
     || (cq_ring_ptr (cq ring) =? NULL)
  then (- EINVAL, a)
  else
    let len := u64 (u32 (shared (host a) (sq_kring_entries (sq ring)))
                    * sizeof_sqe) in
    let '(ret, a) := madvise (sq_sqes (sq ring)) len a in
    if ret =? -1 then (- errno (host a), a)
    else
      let len := sq_ring_sz (sq ring) in
      let '(ret, a) := madvise (sq_ring_ptr (sq ring)) len a in
      if ret =? -1 then (- errno (host a), a)
      else
        if negb (cq_ring_ptr (cq ring) =? sq_ring_ptr (sq ring)) then
          let len := cq_ring_sz (cq ring) in
          let '(ret, a) := madvise (cq_ring_ptr (cq ring)) len a in
          if ret =? -1 then (- errno (host a), a)
          else (0, a)
        else (0, a).

(** The regions a ring holds, in the order [io_uring_ring_dontfork]
    visits them; [n] is the entry count read through [kring_entries]. *)
Definition ring_regions (ring : io_uring) (n : Z) : list (Z * Z) :=
  [(sq_sqes (sq ring), u64 (n * sizeof_sqe));
   (sq_ring_ptr (sq ring), sq_ring_sz (sq ring))]
  ++ (if negb (cq_ring_ptr (cq ring) =? sq_ring_ptr (sq ring))
      then [(cq_ring_ptr (cq ring), cq_ring_sz (cq ring))] else []).

End Dontfork.

(** ** What a kernel keeps to *)

(** The descriptor the next set-up call returns is not one that is open. *)
Definition setup_fresh (w : world) : bool :=
  match setup_oracle w with
  | SetupOk fd _ :: _ => negb (existsb (Z.eqb (Z.of_N fd)) (fds w))
  | _ => true
  end.

(** The ring-entries field of the ring the next set-up creates, read
    where the next [mmap] puts the submission ring, holds the granted
    submission entry count. *)
Definition entries_reported (w : world) : bool :=
  match setup_oracle w, mmap_oracle w with
  | SetupOk _ p :: _, MmapOk a :: _ =>
      u32 (shared w (Zpos a + sqo_ring_entries (sq_off p))) =? sq_entries p
  | _, _ => true
  end.

(** A world in which [madvise] succeeds [n] times. *)
Definition advising (w : world) (n : nat) : advice_world :=
  {| host := w; madvise_oracle := repeat None n; madvise_calls := [] |}.

(** Advice given region by region, stopping at the first [madvise] that
    fails: the calls made, and the [errno] of the failure if any. *)
Fixpoint advise_all (regions : list (Z * Z)) (oracle : list (option positive))
  : list (Z * Z * Z) * option positive :=
  match regions with
  | [] => ([], None)
  | (addr, len) :: rest =>
      match oracle with
      | None :: o =>
          let (calls, e) := advise_all rest o in ((addr, len, 0) :: calls, e)
      | Some e :: _ => ([(addr, len, -1)], Some e)
      | [] => ([(addr, len, -1)], Some ENOMEM)
      end
  end.

(** ** Live mappings of a ring *)

Definition drop_mapping (m : Z * Z) (l : list (Z * Z)) : list (Z * Z) :=
  filter (fun x => negb (mapping_eqb x m)) l.

(** The mappings a successful [io_uring_mmap] adds, in the order it
    makes them; [len] is the length of the entry array. *)
Definition ring_mappings (s : io_uring_sq) (c : io_uring_cq) (len : Z)
  : list (Z * Z) :=
  [(sq_ring_ptr s, sq_ring_sz s)]
  ++ (if negb (cq_ring_ptr c =? sq_ring_ptr s)
      then [(cq_ring_ptr c, cq_ring_sz c)] else [])
  ++ [(sq_sqes s, len)].

(** The live mappings once [io_uring_queue_exit] has run on a ring whose
    entry array is unmapped with length [len]. *)
Definition after_teardown (s : io_uring_sq) (c : io_uring_cq) (len : Z)
    (l : list (Z * Z)) : list (Z * Z) :=
  let l := drop_mapping (sq_sqes s, len) l in
  let l := drop_mapping (sq_ring_ptr s, sq_ring_sz s) l in
  if negb (cq_ring_ptr c =? NULL) && negb (cq_ring_ptr c =? sq_ring_ptr s)
  then drop_mapping (cq_ring_ptr c, cq_ring_sz c) l
  else l.

(** A ring made by the kernel of [granting_world], and the world it
    lives in. *)
Definition demo_created : Z * io_uring * io_uring_params * world :=
  io_uring_queue_init_params (abi := linux_abi) 8 zero_ring zero_params
    (granting_world 0).

Definition demo_ring : io_uring := snd (fst (fst demo_created)).

Definition demo_ring_world : world := snd demo_created.

(** Blocks a trace allocates and blocks it frees, null pointers left
    out. *)
Definition allocated (ev : event) : list Z :=
  match ev with
  | EvMalloc _ r => if r =? NULL then [] else [r]
  | _ => []
  end.

Definition freed (ev : event) : list Z :=
  match ev with
  | EvFree ptr => if ptr =? NULL then [] else [ptr]
  | _ => []
  end.

(** A kernel that creates the ring and then fails to map its entry
    array. *)
Definition half_mapping_world : world :=
  demo_world [SetupOk 3 (demo_params 0)]
             [MmapOk 4096; MmapOk 8192; MmapFail ENOMEM].

(** ** Which mapping step fails *)

Section Steps.
Context {abi : KernelAbi}.

(** The number of [mmap] calls [io_uring_mmap] makes when none fails:
    the submission ring, the completion ring unless the two share one
    mapping, and the entry array. *)
Definition mmap_steps (p : io_uring_params) : nat :=
  if has_flag (features p) IORING_FEAT_SINGLE_MMAP then 2%nat else 3%nat.

End Steps.

(** The first of the next [n] calls of [mmap] that fails: how many calls
    succeed before it, and its [errno].  A world that has no answer left
    fails with [ENOMEM]. *)
Fixpoint failing_step (n : nat) (l : list mmap_outcome)
  : option (nat * positive) :=
  match n with
  | O => None
  | S n' =>
      match l with
      | [] => Some (O, ENOMEM)
      | MmapFail e :: _ => Some (O, e)
      | MmapOk _ :: t =>
          match failing_step n' t with
          | Some (k, e) => Some (S k, e)
          | None => None
          end
      end
  end.

Section PlainEstimate.
Context {abi : KernelAbi}.

(** The byte count with each region converted to the whole pages that
    hold it, and no more: the sizing formula read without the rounding
    of page counts to powers of two. *)
Definition plain_locked_bytes (sq_depth cq_depth page_size : Z) : Z :=
  (ceil_div (round_up_64 (320 + cq_depth * sizeof_cqe)) page_size
   + ceil_div (sq_depth * sizeof_sqe) page_size) * page_size.

End PlainEstimate.

Section KernelLimits.
Context {abi : KernelAbi}.

(** The kernel's admission rule for the depth of a set-up request, as
    io_uring_setup(2) documents it: a depth of 0 is refused, and a depth
    above the limit is refused unless the request carries
    [IORING_SETUP_CLAMP]. *)
Definition kernel_admits (entries flags : Z) : bool :=
  negb (entries =? 0)
  && ((entries <=? KERN_MAX_ENTRIES) || has_flag flags IORING_SETUP_CLAMP).

(** The kernel of [w] holds to that rule on its next set-up request: a
    request for [entries] with [flags] that the rule refuses is answered
    with [EINVAL]. *)
Definition enforces_limit (w : world) (entries flags : Z) : Prop :=
  kernel_admits entries flags = false ->
  exists rest, setup_oracle w = SetupFail 22 :: rest.

End KernelLimits.

(** ** Bit-level lemmas *)

Lemma land_high_mask (x k m : Z) :
  0 <= k -> 0 <= m -> 0 <= x < 2 ^ (k + m) ->
  Z.land x (Z.shiftl (Z.ones m) k) = 2 ^ k * (x / 2 ^ k).
Proof.
  intros Hk Hm Hx.
  rewrite Z.mul_comm, <- Z.shiftr_div_pow2, <- Z.shiftl_mul_pow2 by lia.
  apply Z.bits_inj'; intros n Hn.
  rewrite Z.land_spec.
  destruct (Z.ltb_spec n k) as [Hlt | Hge].
  - rewrite (Z.shiftl_spec_low _ _ _ Hlt), (Z.shiftl_spec_low _ _ _ Hlt).
    apply andb_false_r.
  - rewrite !Z.shiftl_spec by lia. rewrite Z.shiftr_spec by lia.
    replace (n - k + k) with n by lia.
    destruct (Z.ltb_spec (n - k) m) as [Hin | Hout].
    + rewrite Z.ones_spec_low by lia. apply andb_true_r.
    + rewrite Z.ones_spec_high by lia. rewrite andb_false_r.
      symmetry.
      destruct (Z.eq_dec x 0) as [-> | Hx0]; [apply Z.bits_0 |].
      apply Z.bits_above_log2; [lia |].
      apply Z.log2_lt_pow2; [lia |].
      apply Z.lt_le_trans with (2 ^ (k + m)); [lia |].
      apply Z.pow_le_mono_r; lia.
Qed.

Lemma land_mask_test (x mask k : Z) :
  0 <= k <= 32 -> mask = Z.shiftl (Z.ones (32 - k)) k ->
  0 <= x < 2 ^ 32 ->
  (Z.land x mask =? 0) = (x <? 2 ^ k).
Proof.
  intros Hk -> Hx.
  rewrite (land_high_mask x k (32 - k)) by (try lia; replace (k + (32 - k)) with 32 by lia; lia).
  assert (Hp : 0 < 2 ^ k) by (apply Z.pow_pos_nonneg; lia).
  destruct (Z.ltb_spec x (2 ^ k)) as [Hlt | Hge].
  - rewrite Z.div_small by lia. rewrite Z.mul_0_r. reflexivity.
  - apply Z.eqb_neq.
    assert (1 <= x / 2 ^ k) by (apply Z.div_le_lower_bound; lia).
    nia.
Qed.

Lemma fls_step_pair (mask s x r : Z) :
  fls_step mask s (x, r)
  = if Z.land x mask =? 0 then (u32 (Z.shiftl x s), r - s) else (x, r).
Proof. reflexivity. Qed.

(** Decide one step of [__fls]: [k] is the number of low bits the mask
    leaves out. *)
Ltac fls_case k :=
  rewrite fls_step_pair;
  match goal with
  | |- context [Z.land ?x ?mask =? 0] =>
      rewrite (land_mask_test x mask k) by (try reflexivity; lia);
      let H := fresh "Hcmp" in
      destruct (Z.ltb_spec x (2 ^ k)) as [H | H]; cbv beta iota;
      [ unfold u32; rewrite Z.shiftl_mul_pow2 by lia;
        rewrite Z.mod_small by lia | ]
  end.

(** [__fls] is the 1-based position of the highest set bit. *)
Lemma fls_bounds (x : Z) :
  0 < x < 2 ^ 32 ->
  1 <= __fls x <= 32 /\ 2 ^ (__fls x - 1) <= x < 2 ^ (__fls x).
Proof.
  intros Hx. unfold __fls.
  destruct (Z.eqb_spec x 0) as [-> | _]; [lia |].
  cbv zeta.
  fls_case 16; fls_case 24; fls_case 28; fls_case 30; fls_case 31;
    cbn [snd]; (split; [lia |]); cbn; lia.
Qed.

Example fls_examples :
  map __fls [0; 1; 2; 3; 4; 7; 8; 0x7fffffff; 0x80000000; 0xffffffff]
  = [0; 1; 2; 2; 3; 3; 4; 31; 32; 32].
Proof. reflexivity. Qed.

Example roundup_pow2_examples :
  map roundup_pow2 [1; 2; 3; 4; 5; 8; 9; 32768; 32769; 65536; 0x80000000]
  = [1; 2; 4; 4; 8; 8; 16; 32768; 65536; 65536; 0x80000000].
Proof. reflexivity. Qed.

(** [__fls] is determined by the two powers of two around its argument. *)
Lemma fls_unique (x r : Z) :
  1 <= r <= 32 -> 2 ^ (r - 1) <= x < 2 ^ r -> __fls x = r.
Proof.
  intros Hr Hx.
  assert (H0 : 0 < 2 ^ (r - 1)) by (apply Z.pow_pos_nonneg; lia).
  assert (Hr32 : 2 ^ r <= 2 ^ 32) by (apply Z.pow_le_mono_r; lia).
  destruct (fls_bounds x) as [Hb Hf]; [lia |].
  set (f := __fls x) in *.
  destruct (Z.lt_trichotomy f r) as [Hlt | [Heq | Hgt]]; [| exact Heq |].
  - assert (2 ^ f <= 2 ^ (r - 1)) by (apply Z.pow_le_mono_r; lia). lia.
  - assert (2 ^ r <= 2 ^ (f - 1)) by (apply Z.pow_le_mono_r; lia). lia.
Qed.

Lemma fls_log2 (x : Z) : 0 < x < 2 ^ 32 -> __fls x = Z.log2 x + 1.
Proof.
  intros Hx. destruct (fls_bounds x Hx) as [Hb Hf].
  symmetry. apply Z.add_move_r. apply Z.log2_unique; [lia |].
  replace (Z.succ (__fls x - 1)) with (__fls x) by lia. exact Hf.
Qed.

Lemma roundup_pow2_shift (n : Z) :
  1 <= n <= 2 ^ 31 -> roundup_pow2 n = 2 ^ __fls (n - 1) /\ 0 <= __fls (n - 1) <= 31.
Proof.
  intros Hn. unfold roundup_pow2.
  assert (Hu : u32 (n - 1) = n - 1) by (unfold u32; apply Z.mod_small; lia).
  rewrite Hu.
  assert (Hf : 0 <= __fls (n - 1) <= 31).
  { destruct (Z.eq_dec n 1) as [-> | Hne]; [cbn; lia |].
    destruct (fls_bounds (n - 1)) as [Hb Hp]; [lia |].
    destruct (Z.eq_dec (__fls (n - 1)) 32) as [E | E]; [| lia].
    rewrite E in Hp. change (2 ^ (32 - 1)) with (2 ^ 31) in Hp. lia. }
  split; [| exact Hf].
  rewrite Z.shiftl_1_l.
  assert (0 < 2 ^ __fls (n - 1)) by (apply Z.pow_pos_nonneg; lia).
  assert (2 ^ __fls (n - 1) <= 2 ^ 31) by (apply Z.pow_le_mono_r; lia).
  unfold u32, u64.
  rewrite (Z.mod_small _ (2 ^ 64)) by lia. apply Z.mod_small. lia.
Qed.

(** On its intended range [roundup_pow2] is the least power of two that
    is not below its argument. *)
Lemma roundup_pow2_least (n : Z) :
  1 <= n <= 2 ^ 31 ->
  exists k, 0 <= k <= 31 /\ roundup_pow2 n = 2 ^ k /\
            n <= 2 ^ k /\ 2 ^ k < 2 * n.
Proof.
  intros Hn. destruct (roundup_pow2_shift n Hn) as [E Hf].
  exists (__fls (n - 1)). split; [exact Hf |]. split; [exact E |].
  destruct (Z.eq_dec n 1) as [-> | Hne]; [cbn; lia |].
  destruct (fls_bounds (n - 1)) as [Hb Hp]; [lia |].
  assert (2 ^ __fls (n - 1) = 2 * 2 ^ (__fls (n - 1) - 1)).
  { rewrite <- Z.pow_succ_r by lia. f_equal. lia. }
  lia.
Qed.

Lemma roundup_pow2_of_pow2 (k : Z) :
  0 <= k <= 31 -> roundup_pow2 (2 ^ k) = 2 ^ k.
Proof.
  intros Hk.
  assert (Hle : 2 ^ k <= 2 ^ 31) by (apply Z.pow_le_mono_r; lia).
  assert (Hpos : 0 < 2 ^ k) by (apply Z.pow_pos_nonneg; lia).
  destruct (roundup_pow2_shift (2 ^ k)) as [E _]; [lia |].
  rewrite E. f_equal.
  destruct (Z.eq_dec k 0) as [-> | Hk0]; [reflexivity |].
  apply fls_unique; [lia |].
  assert (2 ^ k = 2 * 2 ^ (k - 1)).
  { rewrite <- Z.pow_succ_r by lia. f_equal. lia. }
  assert (0 < 2 ^ (k - 1)) by (apply Z.pow_pos_nonneg; lia).
  lia.
Qed.

Lemma roundup_pow2_high (n : Z) :
  2 ^ 31 < n < 2 ^ 32 -> roundup_pow2 n = 0.
Proof.
  intros Hn. unfold roundup_pow2.
  assert (Hu : u32 (n - 1) = n - 1) by (unfold u32; apply Z.mod_small; lia).
  rewrite Hu, (fls_unique (n - 1) 32) by (cbn; lia).
  reflexivity.
Qed.

(** ** Page counts *)

Lemma land_not_63 (x : Z) :
  0 <= x < 2 ^ 64 -> Z.land x 0xffffffffffffffc0 = 64 * (x / 64).
Proof.
  intros Hx.
  change 0xffffffffffffffc0 with (Z.shiftl (Z.ones 58) 6).
  rewrite (land_high_mask x 6 58) by (try lia; exact Hx).
  reflexivity.
Qed.

Lemma ceil_div_pred (a b : Z) : 0 < b -> ceil_div a b = (a - 1) / b + 1.
Proof.
  intros Hb. unfold ceil_div.
  replace (a + b - 1) with (a - 1 + 1 * b) by lia.
  apply Z.div_add. lia.
Qed.

(** [1 << npages(size, page_size)] is the power-of-two page count of the
    specification, and it stays within twice the bytes it covers. *)
Lemma shift_npages (size ps : Z) :
  1 <= size < 2 ^ 32 -> 0 < ps ->
  u64 (Z.shiftl 1 (npages size ps)) = whole_pages size ps
  /\ 1 <= whole_pages size ps
  /\ whole_pages size ps * ps <= ps + 2 * size.
Proof.
  intros Hs Hps.
  unfold npages, whole_pages, pageCountLog2.
  rewrite ceil_div_pred by exact Hps.
  assert (Hu : u64 (size - 1) = size - 1) by (unfold u64; apply Z.mod_small; lia).
  rewrite Hu. set (k := (size - 1) / ps).
  assert (Hk : 0 <= k) by (apply Z.div_pos; lia).
  assert (Hkps : k * ps <= size - 1).
  { unfold k. rewrite Z.mul_comm. apply Z.mul_div_le. exact Hps. }
  assert (Hk32 : k < 2 ^ 32) by nia.
  assert (Hu32 : u32 k = k) by (unfold u32; apply Z.mod_small; lia).
  rewrite Hu32, Z.shiftl_1_l.
  destruct (Z.eq_dec k 0) as [E | Hne].
  - rewrite E. change (__fls 0) with 0. change (Z.log2_up (0 + 1)) with 0.
    change (2 ^ 0) with 1. change (u64 1) with 1. lia.
  - destruct (fls_bounds k) as [Hb Hp]; [lia |].
    assert (El : Z.log2_up (k + 1) = __fls k).
    { rewrite Z.log2_up_eqn by lia. rewrite fls_log2 by lia.
      replace (Z.pred (k + 1)) with k by lia. lia. }
    rewrite El.
    assert (Hle : 2 ^ __fls k <= 2 ^ 32) by (apply Z.pow_le_mono_r; lia).
    assert (H2 : 2 ^ __fls k = 2 * 2 ^ (__fls k - 1)).
    { rewrite <- Z.pow_succ_r by lia. f_equal. lia. }
    assert (Hpos : 0 < 2 ^ (__fls k - 1)) by (apply Z.pow_pos_nonneg; lia).
    split; [unfold u64; apply Z.mod_small; lia |].
    split; [lia |]. nia.
Qed.

Section EstimateFacts.
Context {abi : KernelAbi}.

(** [rings_size] computes the byte count of the specification, without
    wrap-around, for every depth that passes validation. *)
Lemma rings_size_locked_bytes (entries cq_entries ps : Z) :
  abi_sizes_ok ->
  1 <= entries <= KERN_MAX_ENTRIES ->
  1 <= cq_entries <= KERN_MAX_CQ_ENTRIES ->
  0 < ps < 2 ^ 32 ->
  rings_size entries cq_entries ps = locked_bytes entries cq_entries ps
  /\ 0 < locked_bytes entries cq_entries ps < 2 ^ 63.
Proof.
  intros [[Hs1 Hs2] [Hc1 Hc2]] He Hc Hps.
  unfold KERN_MAX_CQ_ENTRIES, KERN_MAX_ENTRIES in *.
  unfold rings_size, locked_bytes, round_up_64, KRING_SIZE.
  assert (Hprod : 1 <= cq_entries * sizeof_cqe <= 65536 * 4096) by nia.
  assert (Hsq : 1 <= sizeof_sqe * entries <= 32768 * 4096) by nia.
  cbv zeta.
  rewrite (Z.mul_comm entries sizeof_sqe).
  assert (E1 : u64 (cq_entries * sizeof_cqe) = cq_entries * sizeof_cqe)
    by (unfold u64; apply Z.mod_small; lia).
  rewrite E1.
  assert (E2 : u64 (320 + cq_entries * sizeof_cqe) = 320 + cq_entries * sizeof_cqe)
    by (unfold u64; apply Z.mod_small; lia).
  rewrite E2.
  assert (E3 : u64 (320 + cq_entries * sizeof_cqe + 63)
               = 320 + cq_entries * sizeof_cqe + 63)
    by (unfold u64; apply Z.mod_small; lia).
  rewrite E3, land_not_63 by lia.
  assert (E4 : (320 + cq_entries * sizeof_cqe + 63) / 64
               = ceil_div (320 + cq_entries * sizeof_cqe) 64).
  { unfold ceil_div. f_equal. lia. }
  rewrite E4.
  set (cqb := 64 * ceil_div (320 + cq_entries * sizeof_cqe) 64).
  assert (Hcqb : 320 <= cqb <= 65536 * 4096 + 384).
  { unfold cqb. rewrite <- E4.
    pose proof (Z.mul_div_le (320 + cq_entries * sizeof_cqe + 63) 64 ltac:(lia)).
    pose proof (Z.mul_succ_div_gt (320 + cq_entries * sizeof_cqe + 63) 64 ltac:(lia)).
    lia. }
  assert (E5 : u64 (sizeof_sqe * entries) = sizeof_sqe * entries)
    by (unfold u64; apply Z.mod_small; lia).
  rewrite E5.
  destruct (shift_npages cqb ps) as (P1 & P2 & P3); [lia | lia |].
  destruct (shift_npages (sizeof_sqe * entries) ps) as (Q1 & Q2 & Q3); [lia | lia |].
  rewrite P1, Q1.
  set (a := whole_pages cqb ps) in *.
  set (b := whole_pages (sizeof_sqe * entries) ps) in *.
  assert (Hab : 0 < (a + b) * ps < 2 ^ 34) by nia.
  assert (Ha : a < 2 ^ 34) by nia.
  assert (Hb : b < 2 ^ 34) by nia.
  unfold u64. rewrite (Z.mod_small (a + b)) by lia.
  rewrite Z.mod_small by lia. lia.
Qed.

End EstimateFacts.

(** ** Tear-down *)

Section SetupFacts.
Context {abi : KernelAbi}.

Lemma unmap_rings_trace (s : io_uring_sq) (c : io_uring_cq) (w : world) :
  trace (snd (io_uring_unmap_rings s c w))
  = trace w ++ EvMunmap (sq_ring_ptr s) (sq_ring_sz s)
      :: (if negb (cq_ring_ptr c =? NULL)
             && negb (cq_ring_ptr c =? sq_ring_ptr s)
          then [EvMunmap (cq_ring_ptr c) (cq_ring_sz c)] else []).
Proof.
  unfold io_uring_unmap_rings, bind, munmap, ret.
  destruct (negb (cq_ring_ptr c =? NULL)
            && negb (cq_ring_ptr c =? sq_ring_ptr s)); cbn.
  - rewrite <- app_assoc. reflexivity.
  - reflexivity.
Qed.

Lemma queue_exit_trace (ring : io_uring) (w : world) :
  trace (snd (io_uring_queue_exit ring w))
  = trace w
    ++ teardown_calls ring (u32 (shared w (sq_kring_entries (sq ring)))).
Proof.
  unfold io_uring_queue_exit, teardown_calls, bind, load, close.
  cbn [fst snd].
  set (n := u32 (shared w (sq_kring_entries (sq ring)))).
  unfold munmap at 1.
  match goal with
  | |- context [io_uring_unmap_rings ?s ?c ?w1] =>
      pose proof (unmap_rings_trace s c w1) as H;
      destruct (io_uring_unmap_rings s c w1) as [u w2]
  end.
  cbn [fst snd trace log set_fds] in *. rewrite H.
  cbn [trace log set_mappings].
  destruct (negb (cq_ring_ptr (cq ring) =? NULL)
            && negb (cq_ring_ptr (cq ring) =? sq_ring_ptr (sq ring)));
    rewrite <- !app_assoc; reflexivity.
Qed.

Lemma queue_exit_fds (ring : io_uring) (w : world) :
  fds (snd (io_uring_queue_exit ring w))
  = filter (fun d => negb (d =? ring_fd ring)) (fds w).
Proof.
  unfold io_uring_queue_exit, io_uring_unmap_rings, bind, load, munmap, close, ret.
  cbn.
  destruct (negb (cq_ring_ptr (cq ring) =? NULL)
            && negb (cq_ring_ptr (cq ring) =? sq_ring_ptr (sq ring)));
    reflexivity.
Qed.

(** C10: the structure is cleared first, so the mapping runs on zeroed
    descriptors, and [flags] and [ring_fd] are written exactly when the
    mapping returned 0; otherwise they, and [features], are 0. *)
Theorem queue_mmap_flags_fd (fd : Z) (p : io_uring_params) (ring : io_uring)
    (w : world) :
  let '(r, ring', w') := io_uring_queue_mmap fd p ring w in
  io_uring_mmap fd p zero_sq zero_cq w = (r, sq ring', cq ring', w')
  /\ ring_flags ring' = (if r =? 0 then p_flags p else 0)
  /\ ring_fd ring' = (if r =? 0 then fd else 0)
  /\ ring_features ring' = 0.
Proof.
  unfold io_uring_queue_mmap, bind. cbn [sq cq zero_ring].
  destruct (io_uring_mmap fd p zero_sq zero_cq w) as [[[r s] c] w'].
  destruct (r =? 0) eqn:E; cbn; rewrite ?E; auto.
Qed.

End SetupFacts.

(** ** Mapping and unwinding *)

Lemma fresh_in (bases g : list Z) (a : Z) :
  forallb (fun a => negb (existsb (Z.eqb a) bases)) g = true ->
  In a g -> existsb (Z.eqb a) bases = false.
Proof.
  intros H Ha. rewrite forallb_forall in H.
  apply negb_true_iff. exact (H a Ha).
Qed.

Lemma filter_fresh (maps : list (Z * Z)) (a len : Z) :
  existsb (Z.eqb a) (map fst maps) = false ->
  filter (fun m => negb (mapping_eqb m (a, len))) maps = maps.
Proof.
  induction maps as [| [b l] maps IH]; cbn; [auto |].
  intros H. apply orb_false_iff in H. destruct H as [Hb Hr].
  unfold mapping_eqb at 1. cbn [fst snd].
  rewrite Z.eqb_sym, Hb. cbn. f_equal. exact (IH Hr).
Qed.

Lemma unmap_last (maps : list (Z * Z)) (a len : Z) :
  existsb (Z.eqb a) (map fst maps) = false ->
  filter (fun m => negb (mapping_eqb m (a, len))) (maps ++ [(a, len)]) = maps.
Proof.
  intros H. rewrite filter_app, (filter_fresh _ _ _ H). cbn.
  unfold mapping_eqb. cbn. rewrite !Z.eqb_refl. cbn. apply app_nil_r.
Qed.

Lemma unmap_inner (maps : list (Z * Z)) (a len b len' : Z) :
  existsb (Z.eqb a) (map fst maps) = false -> (b =? a) = false ->
  filter (fun m => negb (mapping_eqb m (a, len)))
         ((maps ++ [(a, len)]) ++ [(b, len')])
  = maps ++ [(b, len')].
Proof.
  intros H Hb. rewrite filter_app, (unmap_last _ _ _ H). cbn.
  unfold mapping_eqb. cbn. rewrite Hb. reflexivity.
Qed.

(** Run the system calls of [io_uring_mmap] on a world given by its fields. *)
Ltac run_mmap :=
  unfold bind, mmap, get_errno, ret, io_uring_unmap_rings, munmap;
  cbn -[Z.mul Z.add Z.ltb sqes_len mapping_eqb filter].

Section MapFacts.
Context {abi : KernelAbi}.

(** C1: when one of the [mmap] steps of [io_uring_mmap] fails, after [k]
    steps that succeeded, the call returns the negated [errno] of that
    step, and by then it has unmapped, with the length it was mapped
    with, each of the [k] mappings it had established: its calls are
    the [k + 1] [mmap]s followed by [k] [munmap]s, and the live mappings
    are those from before the call. *)
Theorem io_uring_mmap_unwinds (fd : Z) (p : io_uring_params)
    (s : io_uring_sq) (c : io_uring_cq) (w : world)
    (k : nat) (e : positive)
    (r : Z) (s' : io_uring_sq) (c' : io_uring_cq) (w' : world) :
  mmap_fresh 3 w = true ->
  failing_step (mmap_steps p) (mmap_oracle w) = Some (k, e) ->
  io_uring_mmap fd p s c w = (r, s', c', w') ->
  r = - Z.pos e /\ r < 0 /\ errno w' = Z.pos e
  /\ mappings w' = mappings w
  /\ exists calls,
       forallb is_mmap_call calls = true
       /\ length calls = S k
       /\ length (flat_map established calls) = k
       /\ trace w'
          = trace w ++ calls ++ map unmap_call (flat_map established calls).
Proof.
  intros Hfresh Hstep. unfold io_uring_mmap. cbv zeta.
  fold (sq_region_len p). fold (cq_region_len p). fold (sqes_len p).
  set (s1 := set_sq_ring_sz s (sq_region_len p)).
  set (c1 := set_cq_ring_sz c (cq_region_len p)).
  set (s2 := if has_flag _ _ then _ else s1).
  set (c2 := if has_flag _ _ then _ else c1).
  clearbody s2 c2. clear s1 c1.
  destruct w as [so mo mao po ps sh er maps fds tr].
  unfold mmap_fresh in Hfresh. cbn [mappings mmap_oracle] in Hfresh, Hstep.
  unfold mmap_steps in Hstep.
  destruct (has_flag (features p) IORING_FEAT_SINGLE_MMAP) eqn:Hflag;
  destruct mo as [|[a1|e1] [|[a2|e2] [|[a3|e3] mo]]]; run_mmap.
  all: cbn in Hstep; try discriminate Hstep.
  all: injection Hstep as <- <-.
  all: cbn [firstn granted] in Hfresh.
  all: apply andb_true_iff in Hfresh; destruct Hfresh as [Hd Hf].
  all: try (pose proof (fresh_in _ _ (Z.pos a1) Hf ltac:(cbn; auto)) as F1).
  all: try (pose proof (fresh_in _ _ (Z.pos a2) Hf ltac:(cbn; auto)) as F2).
  all: cbn in Hd.
  all: try (rewrite ?orb_false_r, ?andb_true_r in Hd;
            apply negb_true_iff in Hd; rewrite Pos.eqb_sym in Hd).
  all: rewrite ?Pos.eqb_refl; try rewrite Hd.
  all: cbn -[Z.mul Z.add Z.ltb sqes_len mapping_eqb filter].
  all: intros H; inversion H; subst; clear H.
  all: cbn -[Z.mul Z.add Z.ltb sqes_len mapping_eqb filter].
  all: (split; [reflexivity |]); (split; [reflexivity |]);
       (split; [reflexivity |]).
  all: split;
    [ rewrite ?(unmap_inner _ _ _ _ _ F1) by (cbn; assumption);
      rewrite ?unmap_last by assumption; reflexivity |].
  all: rewrite <- ?app_assoc; cbn [app].
  all: match goal with
       | |- exists calls, _ /\ _ /\ _ /\ ?t ++ ?evs = _ =>
           exists (filter is_mmap_call evs)
       end; cbn; auto.
Qed.

(** C4: with the single-mapping feature reported, a successful
    [io_uring_mmap] has made one ring mapping, at [IORING_OFF_SQ_RING]
    and of the larger of the two computed lengths, before mapping the
    entry array; both descriptors hold its base and its length. *)
Theorem single_mmap_one_region (fd : Z) (p : io_uring_params)
    (s : io_uring_sq) (c : io_uring_cq) (w : world)
    (s' : io_uring_sq) (c' : io_uring_cq) (w' : world) :
  has_flag (features p) IORING_FEAT_SINGLE_MMAP = true ->
  io_uring_mmap fd p s c w = (0, s', c', w') ->
  sq_ring_sz s' = Z.max (sq_region_len p) (cq_region_len p)
  /\ cq_ring_sz c' = sq_ring_sz s'
  /\ cq_ring_ptr c' = sq_ring_ptr s'
  /\ trace w'
     = trace w
       ++ [EvMmap (sq_ring_sz s') fd IORING_OFF_SQ_RING (sq_ring_ptr s');
           EvMmap (sqes_len p) fd IORING_OFF_SQES (sq_sqes s')]
  /\ mappings w'
     = mappings w
       ++ [(sq_ring_ptr s', sq_ring_sz s'); (sq_sqes s', sqes_len p)].
Proof.
  intros Hf. unfold io_uring_mmap. cbv zeta. rewrite Hf.
  fold (sq_region_len p). fold (cq_region_len p). fold (sqes_len p).
  set (s1 := set_sq_ring_sz s (sq_region_len p)).
  set (c1 := set_cq_ring_sz c (cq_region_len p)).
  set (s2 := if sq_ring_sz s1 <? cq_ring_sz c1 then _ else _).
  set (c2 := set_cq_ring_sz c1 (sq_ring_sz s2)).
  assert (Hs2 : sq_ring_sz s2 = Z.max (sq_region_len p) (cq_region_len p)).
  { unfold s2. cbn.
    destruct (Z.ltb_spec (sq_region_len p) (cq_region_len p)); cbn; lia. }
  assert (Hc2 : cq_ring_sz c2 = sq_ring_sz s2) by reflexivity.
  clearbody s2 c2. clear s1 c1.
  destruct w as [so mo mao po ps sh er maps fds tr].
  destruct mo as [|[a1|e1] [|[a3|e3] mo]]; run_mmap;
    rewrite ?Pos.eqb_refl; cbn -[Z.mul Z.add Z.ltb sqes_len];
    intros H; inversion H; subst; clear H.
  cbn -[Z.mul Z.add Z.ltb sqes_len].
  rewrite <- !app_assoc. cbn [app]. auto.
Qed.

End MapFacts.

(** ** What the calls leave alone *)

Section Frames.
Context {abi : KernelAbi}.

Ltac split_ifs :=
  repeat match goal with
         | |- context [if ?b then _ else _] => destruct b
         end.

Lemma unmap_rings_pagesize (s : io_uring_sq) (c : io_uring_cq) (w : world) :
  pagesize (snd (io_uring_unmap_rings s c w)) = pagesize w.
Proof.
  unfold io_uring_unmap_rings, bind, munmap, ret. split_ifs; reflexivity.
Qed.

Lemma queue_exit_pagesize (ring : io_uring) (w : world) :
  pagesize (snd (io_uring_queue_exit ring w)) = pagesize w.
Proof.
  unfold io_uring_queue_exit, io_uring_unmap_rings, bind, load, munmap, close, ret.
  cbn. split_ifs; reflexivity.
Qed.

Lemma io_uring_mmap_pagesize (fd : Z) (p : io_uring_params)
    (s : io_uring_sq) (c : io_uring_cq) (w : world) :
  pagesize (snd (io_uring_mmap fd p s c w)) = pagesize w.
Proof.
  unfold io_uring_mmap. cbv zeta.
  set (s2 := if has_flag _ _ then _ else _).
  set (c2 := if has_flag _ _ then _ else _).
  clearbody s2 c2.
  destruct w as [so mo mao po ps sh er maps fds tr].
  destruct (has_flag (features p) IORING_FEAT_SINGLE_MMAP);
    destruct mo as [|[a1|e1] [|[a2|e2] [|[a3|e3] mo]]]; run_mmap;
    split_ifs; reflexivity.
Qed.

Lemma queue_init_params_pagesize (entries : Z) (ring : io_uring)
    (p : io_uring_params) (w : world) :
  pagesize (snd (io_uring_queue_init_params entries ring p w)) = pagesize w.
Proof.
  unfold io_uring_queue_init_params, bind, __sys_io_uring_setup.
  destruct (setup_oracle w) as [| [fd q | e] rest]; cbn; try reflexivity.
  destruct fd; cbn.
  all: unfold io_uring_queue_mmap, bind.
  all: match goal with
       | |- context [io_uring_mmap ?a ?b ?c ?d ?w0] =>
           pose proof (io_uring_mmap_pagesize a b c d w0) as H;
           destruct (io_uring_mmap a b c d w0) as [[[r s] c'] w']
       end.
  all: cbn in H; destruct (r =? 0) eqn:E; cbn; rewrite ?E; cbn; exact H.
Qed.
End Frames.

(** ** The estimator *)

Lemma roundup_pow2_range (n lim k : Z) :
  0 <= k <= 31 -> lim = 2 ^ k -> 1 <= n <= lim ->
  1 <= roundup_pow2 n <= lim.
Proof.
  intros Hk -> Hn.
  assert (Hle : 2 ^ k <= 2 ^ 31) by (apply Z.pow_le_mono_r; lia).
  destruct (roundup_pow2_least n) as (j & Hj & E & Hlo & Hhi); [lia |].
  rewrite E. split; [lia |].
  destruct (Z.le_gt_cases j k) as [Hjk | Hjk];
    [apply Z.pow_le_mono_r; lia |].
  assert (Hkj : 2 ^ (k + 1) <= 2 ^ j) by (apply Z.pow_le_mono_r; lia).
  rewrite Z.pow_add_r in Hkj by lia. lia.
Qed.

Section EstimatorFacts.
Context {abi : KernelAbi}.

Lemma clamp_depth_range (clamp : bool) (lim n e : Z) :
  0 <= n -> 0 < lim -> clamp_depth clamp lim n = Some e -> 1 <= e <= lim.
Proof.
  unfold clamp_depth. intros Hn Hl.
  destruct (Z.eqb_spec n 0) as [E0 | E0]; [discriminate |].
  destruct (Z.ltb_spec lim n) as [Hlt | Hge]; [destruct clamp |];
    intros Heq; inversion Heq; subst; lia.
Qed.

Lemma estimator_depths_range (entries : Z) (p : io_uring_params) (sqd cqd : Z) :
  0 <= entries -> 0 <= cq_entries p ->
  estimator_depths entries p = Some (sqd, cqd) ->
  1 <= sqd <= KERN_MAX_ENTRIES /\ 1 <= cqd <= KERN_MAX_CQ_ENTRIES.
Proof.
  intros He Hc. unfold estimator_depths. cbv zeta.
  destruct (clamp_depth _ KERN_MAX_ENTRIES entries) as [e |] eqn:E1;
    [| discriminate].
  apply clamp_depth_range in E1; [| lia | reflexivity].
  pose proof (roundup_pow2_range e KERN_MAX_ENTRIES 15 ltac:(lia) eq_refl E1) as R1.
  destruct (has_flag (p_flags p) IORING_SETUP_CQSIZE).
  - destruct (clamp_depth _ KERN_MAX_CQ_ENTRIES (cq_entries p)) as [c |] eqn:E2;
      [| discriminate].
    apply clamp_depth_range in E2; [| lia | reflexivity].
    pose proof (roundup_pow2_range c KERN_MAX_CQ_ENTRIES 16 ltac:(lia) eq_refl E2) as R2.
    destruct (roundup_pow2 c <? roundup_pow2 e); [discriminate |].
    intros [= <- <-]. auto.
  - remember (2 * roundup_pow2 e) as d eqn:Hd.
    intros [= <- <-].
    unfold KERN_MAX_CQ_ENTRIES, KERN_MAX_ENTRIES in *. lia.
Qed.

(** Once the throw-away ring has been created and torn down, and it does
    not report native workers, the code takes steps 3 to 7. *)
Lemma mlock_size_params_steps (entries : Z) (p : io_uring_params)
    (ring : io_uring) (w : world)
    (r : Z) (ring' : io_uring) (lp : io_uring_params) (w1 : world) :
  io_uring_queue_init_params entries ring zero_params w = (r, ring', lp, w1) ->
  0 <= r ->
  has_flag (features lp) IORING_FEAT_NATIVE_WORKERS = false ->
  0 <= entries ->
  fst (io_uring_mlock_size_params entries p ring w)
  = match estimator_depths entries p with
    | None => - EINVAL
    | Some (sqd, cqd) => s64 (rings_size sqd cqd (u32 (page_size_of w)))
    end.
Proof.
  intros Hinit Hr Hnat He.
  pose proof (queue_init_params_pagesize entries ring zero_params w) as Hps.
  unfold io_uring_mlock_size_params, bind. rewrite Hinit in *. cbn [snd] in Hps.
  destruct (Z.ltb_spec r 0) as [? | _]; [lia |].
  pose proof (queue_exit_pagesize ring' w1) as Hps2.
  destruct (io_uring_queue_exit ring' w1) as [u w2]. cbn [snd] in Hps2.
  rewrite Hnat.
  unfold estimator_depths, clamp_depth, page_size_of.
  cbv zeta. rewrite <- Hps, <- Hps2.
  destruct (Z.eqb_spec entries 0) as [E0 | E0]; [reflexivity |].
  assert (D : forall e, 1 <= e <= KERN_MAX_ENTRIES ->
              u32 (2 * roundup_pow2 e) = 2 * roundup_pow2 e).
  { intros e Hrange.
    pose proof (roundup_pow2_range e KERN_MAX_ENTRIES 15 ltac:(lia) eq_refl Hrange).
    unfold KERN_MAX_ENTRIES in *. unfold u32. apply Z.mod_small. lia. }
  destruct (Z.ltb_spec KERN_MAX_ENTRIES entries) as [Hbig | Hsmall];
    [destruct (has_flag (p_flags p) IORING_SETUP_CLAMP) eqn:Hclamp;
       cbn [negb]; [| reflexivity] |].
  all: destruct (has_flag (p_flags p) IORING_SETUP_CQSIZE);
    [| rewrite D by (unfold KERN_MAX_ENTRIES in *; lia); reflexivity].
  all: destruct (cq_entries p =? 0); [reflexivity |].
  all: destruct (KERN_MAX_CQ_ENTRIES <? cq_entries p);
    rewrite ?Hclamp; cbn [negb].
  all: try match goal with
           | |- context [has_flag (p_flags ?q) IORING_SETUP_CLAMP] =>
               destruct (has_flag (p_flags q) IORING_SETUP_CLAMP);
               cbn [negb]; [| reflexivity]
           end.
  all: match goal with
       | |- context [roundup_pow2 ?c <? roundup_pow2 ?e] =>
           destruct (roundup_pow2 c <? roundup_pow2 e); reflexivity
       end.
Qed.

End EstimatorFacts.

(** ** Probing *)

Section ProbeFacts.
Context {abi : KernelAbi}.

Lemma get_probe_ring_result (ring : io_uring) (w : world) :
  (fst (io_uring_get_probe_ring ring w) = NULL
   <-> peek_malloc w = NULL \/ peek_probe w < 0)
  /\ shared (snd (io_uring_get_probe_ring ring w)) = shared w
  /\ fds (snd (io_uring_get_probe_ring ring w)) = fds w
  /\ mappings (snd (io_uring_get_probe_ring ring w)) = mappings w.
Proof.
  unfold io_uring_get_probe_ring, bind, malloc, io_uring_register_probe,
    free, ret, peek_malloc, peek_probe. cbv zeta.
  destruct w as [so mo mao po ps sh er maps fds tr]. cbn.
  destruct mao as [| [a |] mao]; cbn; try (intuition auto; fail).
  destruct po as [| q po]; cbn.
  - intuition auto. lia.
  - destruct (Z.leb_spec 0 q); cbn; unfold NULL; intuition (auto; try lia; try discriminate).
Qed.

(** C9: when the scratch ring has been created, [io_uring_get_probe]
    ends with the calls of [io_uring_queue_exit] on that ring, whatever
    became of the allocation and of the query, and the ring's descriptor
    is closed on return; the result is [NULL] exactly when the ring was
    not created, the allocation failed or the query failed. *)
Theorem get_probe_destroys_scratch (ring : io_uring) (w : world)
    (r : Z) (ring' : io_uring) (w1 : world) :
  io_uring_queue_init 2 ring 0 w = (r, ring', w1) ->
  let '(probe, w') := io_uring_get_probe ring w in
  (probe = NULL <-> r < 0 \/ peek_malloc w1 = NULL \/ peek_probe w1 < 0)
  /\ (r < 0 -> w' = w1)
  /\ (0 <= r ->
      w' = snd (io_uring_queue_exit ring'
                  (snd (io_uring_get_probe_ring ring' w1)))
      /\ trace w'
         = trace (snd (io_uring_get_probe_ring ring' w1))
           ++ teardown_calls ring'
                (u32 (shared w1 (sq_kring_entries (sq ring'))))
      /\ ~ In (ring_fd ring') (fds w')).
Proof.
  intros Hinit. unfold io_uring_get_probe, bind. rewrite Hinit.
  destruct (Z.ltb_spec r 0) as [Hneg | Hpos].
  - cbn. split; [tauto |]. split; [reflexivity | lia].
  - destruct (get_probe_ring_result ring' w1) as (Hnull & Hsh & _ & _).
    destruct (io_uring_get_probe_ring ring' w1) as [probe w2].
    cbn [fst snd] in *.
    pose proof (queue_exit_trace ring' w2) as Htr.
    pose proof (queue_exit_fds ring' w2) as Hfd.
    destruct (io_uring_queue_exit ring' w2) as [u w3]. cbn [fst snd ret] in *.
    split; [rewrite Hnull; intuition lia |].
    split; [lia |]. intros _.
    split; [reflexivity |].
    split; [rewrite Htr, Hsh; reflexivity |].
    rewrite Hfd. intros H. apply filter_In in H.
    destruct H as [_ H]. rewrite Z.eqb_refl in H. discriminate.
Qed.

End ProbeFacts.

(** ** Rounding *)

(** C7, on the range where a power of two fits: for [1 <= n <= 2^31]
    the result is the least power of two not below [n]; above [2^31] the
    shift reaches [2^32] and the [unsigned] result is 0; and the
    function leaves its own results unchanged. *)
Theorem roundup_pow2_spec (n : Z) :
  1 <= n < 2 ^ 32 ->
  (n <= 2 ^ 31 ->
   exists k, 0 <= k <= 31 /\ roundup_pow2 n = 2 ^ k
             /\ n <= roundup_pow2 n /\ roundup_pow2 n < 2 * n)
  /\ (2 ^ 31 < n -> roundup_pow2 n = 0)
  /\ roundup_pow2 (roundup_pow2 n) = roundup_pow2 n.
Proof.
  intros Hn. split; [| split].
  - intros Hle. destruct (roundup_pow2_least n) as (k & Hk & E & Hlo & Hhi); [lia |].
    exists k. rewrite E. auto.
  - intros Hgt. apply roundup_pow2_high. lia.
  - destruct (Z.le_gt_cases n (2 ^ 31)) as [Hle | Hgt].
    + destruct (roundup_pow2_least n) as (k & Hk & E & _); [lia |].
      rewrite E. apply roundup_pow2_of_pow2. exact Hk.
    + rewrite (roundup_pow2_high n) by lia. reflexivity.
Qed.
(** ** Claims about the estimator *)

Section EstimatorClaims.
Context {abi : KernelAbi}.

Lemma s64_small (z : Z) : 0 <= z < 2 ^ 63 -> s64 z = z.
Proof.
  intros Hz. unfold s64, u64. rewrite Z.mod_small by lia.
  destruct (Z.ltb_spec z (2 ^ 63)); lia.
Qed.

(** Steps 3 to 7 end in the byte count of the specification whenever
    the depths pass validation. *)
Lemma mlock_size_params_bytes (entries : Z) (p : io_uring_params)
    (ring : io_uring) (w : world)
    (r : Z) (ring' : io_uring) (lp : io_uring_params) (w1 : world)
    (sqd cqd : Z) :
  io_uring_queue_init_params entries ring zero_params w = (r, ring', lp, w1) ->
  0 <= r ->
  has_flag (features lp) IORING_FEAT_NATIVE_WORKERS = false ->
  abi_sizes_ok ->
  0 < page_size_of w < 2 ^ 32 ->
  0 <= entries -> 0 <= cq_entries p ->
  estimator_depths entries p = Some (sqd, cqd) ->
  fst (io_uring_mlock_size_params entries p ring w)
  = locked_bytes sqd cqd (page_size_of w)
  /\ 0 < locked_bytes sqd cqd (page_size_of w) < 2 ^ 63
  /\ 1 <= sqd <= KERN_MAX_ENTRIES /\ 1 <= cqd <= KERN_MAX_CQ_ENTRIES.
Proof.
  intros Hinit Hr Hnat Habi Hps He Hc Hd.
  rewrite (mlock_size_params_steps _ p _ _ _ _ _ _ Hinit Hr Hnat He), Hd.
  destruct (estimator_depths_range _ _ _ _ He Hc Hd) as [Rs Rc].
  assert (Hu : u32 (page_size_of w) = page_size_of w)
    by (unfold u32; apply Z.mod_small; lia).
  rewrite Hu.
  destruct (rings_size_locked_bytes sqd cqd (page_size_of w) Habi Rs Rc Hps)
    as [E B].
  rewrite E, s64_small by lia. auto.
Qed.

(** C5: when the throw-away ring was created and its resolved
    parameters carry the native-workers feature, the result is 0 for
    every [entries] and every [p]; the ring has been torn down. *)
Theorem mlock_size_native_workers (entries : Z) (p : io_uring_params)
    (ring : io_uring) (w : world)
    (r : Z) (ring' : io_uring) (lp : io_uring_params) (w1 : world) :
  io_uring_queue_init_params entries ring zero_params w = (r, ring', lp, w1) ->
  0 <= r ->
  has_flag (features lp) IORING_FEAT_NATIVE_WORKERS = true ->
  io_uring_mlock_size_params entries p ring w
  = (0, snd (io_uring_queue_exit ring' w1)).
Proof.
  intros Hinit Hr Hnat.
  unfold io_uring_mlock_size_params, bind. rewrite Hinit.
  destruct (Z.ltb_spec r 0) as [? | _]; [lia |].
  destruct (io_uring_queue_exit ring' w1) as [u w2].
  rewrite Hnat. reflexivity.
Qed.

(** C3, with the page counts as the code takes them: for depths that
    pass validation the estimator returns the completion-region bytes
    (320 plus depth times record size, rounded up to 64) and the
    entry-array bytes, each turned into whole pages and that number of
    pages rounded up to a power of two ([1 << npages]), summed and
    multiplied by the page size, which is 4096 when the system reports
    none. *)
Theorem mlock_size_total (entries : Z) (p : io_uring_params)
    (ring : io_uring) (w : world)
    (r : Z) (ring' : io_uring) (lp : io_uring_params) (w1 : world)
    (sqd cqd : Z) :
  io_uring_queue_init_params entries ring zero_params w = (r, ring', lp, w1) ->
  0 <= r ->
  has_flag (features lp) IORING_FEAT_NATIVE_WORKERS = false ->
  abi_sizes_ok ->
  0 < page_size_of w < 2 ^ 32 ->
  0 <= entries -> 0 <= cq_entries p ->
  estimator_depths entries p = Some (sqd, cqd) ->
  fst (io_uring_mlock_size_params entries p ring w)
  = (whole_pages (round_up_64 (320 + cqd * sizeof_cqe)) (page_size_of w)
     + whole_pages (sqd * sizeof_sqe) (page_size_of w)) * page_size_of w
  /\ rings_size sqd cqd (page_size_of w)
     = fst (io_uring_mlock_size_params entries p ring w)
  /\ (pagesize w < 0 -> page_size_of w = 4096).
Proof.
  intros Hinit Hr Hnat Habi Hps He Hc Hd.
  destruct (mlock_size_params_bytes _ _ _ _ _ _ _ _ _ _
              Hinit Hr Hnat Habi Hps He Hc Hd) as (E & B & Rs & Rc).
  split; [exact E |]. split.
  - rewrite E. apply rings_size_locked_bytes; assumption.
  - unfold page_size_of. intros Hneg.
    destruct (Z.ltb_spec (pagesize w) 0); [reflexivity | lia].
Qed.

(** C2: the clamp is never reached on a kernel that enforces the limit.
    The throw-away ring is requested with the caller's [entries] and no
    flags, whatever the caller's options; for [entries] above 32768 a
    kernel that holds to the limit answers that request with [EINVAL],
    and the estimator returns [-EINVAL] although the caller's flags
    carry the clamping option. *)
Theorem mlock_size_clamp_defeated (entries : Z) (p : io_uring_params)
    (ring : io_uring) (w : world) :
  KERN_MAX_ENTRIES < entries ->
  has_flag (p_flags p) IORING_SETUP_CLAMP = true ->
  (forall flags, enforces_limit w entries flags) ->
  fst (io_uring_mlock_size_params entries p ring w) = - EINVAL
  /\ trace (snd (io_uring_mlock_size_params entries p ring w))
     = trace w ++ [EvSetup entries 0 (-1)].
Proof.
  intros Hbig _ Hk.
  destruct (Hk 0) as [rest Hso].
  { unfold kernel_admits, has_flag. rewrite Z.land_0_l.
    replace (entries <=? KERN_MAX_ENTRIES) with false
      by (symmetry; apply Z.leb_gt; exact Hbig).
    cbn. apply andb_false_r. }
  unfold io_uring_mlock_size_params, io_uring_queue_init_params, bind,
    __sys_io_uring_setup, get_errno, ret.
  rewrite Hso. split; reflexivity.
Qed.

(** C6, by the rounded override: with an explicit completion size, a
    zero override gives [-EINVAL], and so does an override whose
    power-of-two rounding (after clamping) is below the rounded
    submission depth; an override whose rounding reaches that depth is
    accepted, also when the override itself is below it. *)
Theorem mlock_size_cq_override (entries : Z) (p : io_uring_params)
    (ring : io_uring) (w : world)
    (r : Z) (ring' : io_uring) (lp : io_uring_params) (w1 : world) :
  io_uring_queue_init_params entries ring zero_params w = (r, ring', lp, w1) ->
  0 <= r ->
  has_flag (features lp) IORING_FEAT_NATIVE_WORKERS = false ->
  0 <= entries ->
  has_flag (p_flags p) IORING_SETUP_CQSIZE = true ->
  (cq_entries p = 0 ->
   fst (io_uring_mlock_size_params entries p ring w) = - EINVAL)
  /\ (forall e c : Z,
      clamp_depth (has_flag (p_flags p) IORING_SETUP_CLAMP)
        KERN_MAX_ENTRIES entries = Some e ->
      clamp_depth (has_flag (p_flags p) IORING_SETUP_CLAMP)
        KERN_MAX_CQ_ENTRIES (cq_entries p) = Some c ->
      (roundup_pow2 c < roundup_pow2 e ->
       fst (io_uring_mlock_size_params entries p ring w) = - EINVAL)
      /\ (roundup_pow2 e <= roundup_pow2 c ->
          abi_sizes_ok -> 0 < page_size_of w < 2 ^ 32 -> 0 <= cq_entries p ->
          fst (io_uring_mlock_size_params entries p ring w)
          = locked_bytes (roundup_pow2 e) (roundup_pow2 c) (page_size_of w)
          /\ 0 < fst (io_uring_mlock_size_params entries p ring w))).
Proof.
  intros Hinit Hr Hnat He Hcq.
  pose proof (mlock_size_params_steps _ p _ _ _ _ _ _ Hinit Hr Hnat He) as S.
  split.
  - intros Hz. rewrite S. unfold estimator_depths. rewrite Hcq, Hz.
    destruct (clamp_depth _ KERN_MAX_ENTRIES entries); reflexivity.
  - intros e c E C.
    assert (D : estimator_depths entries p
                = if roundup_pow2 c <? roundup_pow2 e then None
                  else Some (roundup_pow2 e, roundup_pow2 c)).
    { unfold estimator_depths. rewrite E, Hcq, C. reflexivity. }
    split.
    + intros Hlt. rewrite S, D.
      destruct (Z.ltb_spec (roundup_pow2 c) (roundup_pow2 e)); [reflexivity | lia].
    + intros Hle Habi Hps Hc.
      destruct (Z.ltb_spec (roundup_pow2 c) (roundup_pow2 e)); [lia |].
      destruct (mlock_size_params_bytes _ _ _ _ _ _ _ _ _ _
                  Hinit Hr Hnat Habi Hps He Hc D) as (Eq & B & _).
      rewrite Eq. split; [reflexivity | lia].
Qed.

End EstimatorClaims.
(** ** The theorems at concrete inputs *)

(** A scratch ring is created, probed and torn down. *)
Example get_probe_run :
  let res := io_uring_get_probe (abi := linux_abi) zero_ring (granting_world 0) in
  fst res = 100
  /\ trace (snd res)
     = [EvSetup 2 0 3; EvMmap 608 3 0 4096; EvMmap 576 3 0x8000000 8192;
        EvMmap 512 3 0x10000000 12288; EvMalloc 2064 100;
        EvRegisterProbe 3 100 256 0; EvMunmap 12288 512;
        EvMunmap 4096 608; EvMunmap 8192 576; EvClose 3]
  /\ mappings (snd res) = [] /\ fds (snd res) = [0; 1; 2].
Proof. vm_compute. repeat split. Qed.

(** A depth of 5 is rounded to 8 and its completion depth defaults to
    16: the estimate is the one for an explicit completion size of 16. *)
Example estimate_depth_5 :
  fst (io_uring_mlock_size_params (abi := linux_abi) 5 (params_with 0 0)
         zero_ring (granting_world 0)) = 8192
  /\ fst (io_uring_mlock_size_params (abi := linux_abi) 5 (params_with 8 16)
            zero_ring (granting_world 0)) = 8192
  /\ estimator_depths (abi := linux_abi) 5 (params_with 0 0) = Some (8, 16).
Proof. vm_compute. repeat split. Qed.

(** The page count is a power of two: 1024 completion records take
    16704 bytes, five pages of 4096, and are counted as eight. *)
Example rings_size_512_1024 :
  rings_size (abi := linux_abi) 512 1024 4096 = (8 + 8) * 4096
  /\ whole_pages 16704 4096 = 8 /\ ceil_div 16704 4096 = 5.
Proof. vm_compute. repeat split. Qed.

Lemma roundup_pow2_spec_witness :
  roundup_pow2 5 = 8 /\ roundup_pow2 (roundup_pow2 5) = roundup_pow2 5.
Proof.
  split; [reflexivity |].
  exact (proj2 (proj2 (roundup_pow2_spec 5 ltac:(lia)))).
Defined.

(** C7 as stated fails above [2^31]: the result is 0, which is neither a
    power of two nor at least [n]. *)
Lemma roundup_pow2_wraps_cex :
  1 <= 0x80000001 < 2 ^ 32
  /\ roundup_pow2 0x80000001 = 0
  /\ ~ (0x80000001 <= roundup_pow2 0x80000001)
  /\ (forall k, 0 <= k -> roundup_pow2 0x80000001 <> 2 ^ k).
Proof.
  assert (E : roundup_pow2 0x80000001 = 0) by reflexivity.
  rewrite E. split; [lia |]. split; [reflexivity |]. split; [lia |].
  intros k Hk H. assert (0 < 2 ^ k) by (apply Z.pow_pos_nonneg; lia). lia.
Qed.

Lemma io_uring_mmap_unwinds_witness :
  mmap_fresh 3 sqes_failing_world = true
  /\ failing_step (mmap_steps (abi := linux_abi) (demo_params 0))
       (mmap_oracle sqes_failing_world) = Some (2%nat, ENOMEM)
  /\ fst (fst (fst (io_uring_mmap (abi := linux_abi) 3 (demo_params 0)
                      zero_sq zero_cq sqes_failing_world))) = -12
  /\ mappings (snd (io_uring_mmap (abi := linux_abi) 3 (demo_params 0)
                      zero_sq zero_cq sqes_failing_world)) = [].
Proof.
  split; [reflexivity |]. split; [reflexivity |].
  set (X := io_uring_mmap (abi := linux_abi) 3 (demo_params 0)
              zero_sq zero_cq sqes_failing_world).
  destruct (io_uring_mmap_unwinds (abi := linux_abi) 3 (demo_params 0)
              zero_sq zero_cq sqes_failing_world 2 ENOMEM
              (fst (fst (fst X))) (snd (fst (fst X))) (snd (fst X)) (snd X)
              ltac:(vm_compute; reflexivity) ltac:(vm_compute; reflexivity)
              ltac:(vm_compute; reflexivity)) as (Hr & _ & _ & Hm & _).
  split; [exact Hr | exact Hm].
Defined.

Lemma single_mmap_one_region_witness :
  let X := io_uring_mmap (abi := linux_abi) 3 (demo_params 1)
             zero_sq zero_cq (granting_world 1) in
  cq_ring_ptr (snd (fst X)) = sq_ring_ptr (snd (fst (fst X)))
  /\ sq_ring_sz (snd (fst (fst X))) = 608.
Proof.
  intros X.
  pose proof (single_mmap_one_region (abi := linux_abi) 3 (demo_params 1)
                zero_sq zero_cq (granting_world 1)
                (snd (fst (fst X))) (snd (fst X)) (snd X)
                ltac:(vm_compute; reflexivity)
                ltac:(vm_compute; reflexivity)) as H.
  vm_compute in H.
  destruct H as (Hsz & _ & Hptr & _).
  vm_compute. split; [exact Hptr | exact Hsz].
Defined.

Lemma get_probe_destroys_scratch_witness :
  fst (io_uring_get_probe (abi := linux_abi) zero_ring (granting_world 0)) <> NULL
  /\ ~ In 3 (fds (snd (io_uring_get_probe (abi := linux_abi) zero_ring
                          (granting_world 0)))).
Proof.
  set (I := io_uring_queue_init (abi := linux_abi) 2 zero_ring 0
              (granting_world 0)).
  pose proof (get_probe_destroys_scratch (abi := linux_abi) zero_ring
                (granting_world 0) (fst (fst I)) (snd (fst I)) (snd I)
                ltac:(vm_compute; reflexivity)) as H.
  destruct (io_uring_get_probe (abi := linux_abi) zero_ring (granting_world 0))
    as [probe w'] eqn:E.
  destruct H as (Hnull & _ & Hdone).
  destruct (Hdone ltac:(vm_compute; discriminate)) as (_ & _ & Hfd).
  split; [| exact Hfd].
  cbn [fst]. intros Hp. apply Hnull in Hp.
  vm_compute in Hp. destruct Hp as [Hp | [Hp | Hp]]; discriminate.
Defined.

Lemma mlock_size_native_workers_witness :
  fst (io_uring_mlock_size_params (abi := linux_abi) 4096 (params_with 0 0)
         zero_ring (granting_world 512)) = 0.
Proof.
  set (I := io_uring_queue_init_params (abi := linux_abi) 4096 zero_ring
              zero_params (granting_world 512)).
  rewrite (mlock_size_native_workers (abi := linux_abi) 4096 (params_with 0 0)
             zero_ring (granting_world 512)
             (fst (fst (fst I))) (snd (fst (fst I))) (snd (fst I)) (snd I)
             ltac:(vm_compute; reflexivity) ltac:(vm_compute; discriminate)
             ltac:(vm_compute; reflexivity)).
  reflexivity.
Defined.

Lemma mlock_size_total_witness :
  fst (io_uring_mlock_size_params (abi := linux_abi) 512 (params_with 0 0)
         zero_ring (granting_world 0)) = (8 + 8) * 4096.
Proof.
  set (I := io_uring_queue_init_params (abi := linux_abi) 512 zero_ring
              zero_params (granting_world 0)).
  rewrite (proj1 (mlock_size_total (abi := linux_abi) 512 (params_with 0 0)
             zero_ring (granting_world 0)
             (fst (fst (fst I))) (snd (fst (fst I))) (snd (fst I)) (snd I)
             512 1024
             ltac:(vm_compute; reflexivity) ltac:(vm_compute; discriminate)
             ltac:(vm_compute; reflexivity)
             ltac:(vm_compute; intuition discriminate)
             ltac:(vm_compute; intuition discriminate)
             ltac:(lia) ltac:(vm_compute; discriminate)
             ltac:(vm_compute; reflexivity))).
  vm_compute. reflexivity.
Defined.

(** C3 as stated fails where a page count is not a power of two: at the
    validated depths 512 and 1024 the completion region takes 16704
    bytes, five pages of 4096, and the entry array eight; the estimator
    returns sixteen pages, not thirteen. *)
Lemma mlock_size_total_cex :
  estimator_depths (abi := linux_abi) 512 (params_with 0 0) = Some (512, 1024)
  /\ fst (io_uring_mlock_size_params (abi := linux_abi) 512 (params_with 0 0)
            zero_ring (granting_world 0)) = 65536
  /\ plain_locked_bytes (abi := linux_abi) 512 1024 4096 = (5 + 8) * 4096
  /\ fst (io_uring_mlock_size_params (abi := linux_abi) 512 (params_with 0 0)
            zero_ring (granting_world 0))
     <> plain_locked_bytes (abi := linux_abi) 512 1024 4096.
Proof. vm_compute. repeat split; discriminate. Qed.

Lemma mlock_size_clamp_defeated_witness :
  fst (io_uring_mlock_size_params (abi := linux_abi) 40000 (params_with 16 0)
         zero_ring rejecting_world) = - EINVAL
  /\ trace (snd (io_uring_mlock_size_params (abi := linux_abi) 40000
                   (params_with 16 0) zero_ring rejecting_world))
     = [EvSetup 40000 0 (-1)].
Proof.
  exact (mlock_size_clamp_defeated (abi := linux_abi) 40000 (params_with 16 0)
           zero_ring rejecting_world
           ltac:(reflexivity) ltac:(vm_compute; reflexivity)
           ltac:(intros flags _; exists []; reflexivity)).
Defined.

Lemma mlock_size_cq_override_witness :
  fst (io_uring_mlock_size_params (abi := linux_abi) 16 (params_with 8 5)
         zero_ring (granting_world 0)) = - EINVAL.
Proof.
  set (I := io_uring_queue_init_params (abi := linux_abi) 16 zero_ring
              zero_params (granting_world 0)).
  pose proof (mlock_size_cq_override (abi := linux_abi) 16
                (params_with 8 5) zero_ring (granting_world 0)
                (fst (fst (fst I))) (snd (fst (fst I))) (snd (fst I)) (snd I)
                ltac:(vm_compute; reflexivity) ltac:(vm_compute; discriminate)
                ltac:(vm_compute; reflexivity) ltac:(lia)
                ltac:(vm_compute; reflexivity))
    as (_ & H).
  exact (proj1 (H 16 5 ltac:(vm_compute; reflexivity)
                  ltac:(vm_compute; reflexivity))
               ltac:(vm_compute; reflexivity)).
Defined.

(** C6 as stated fails for an override below the rounded submission
    depth whose own rounding reaches it: 5 is below 8, is rounded to 8
    and is accepted. *)
Lemma mlock_size_cq_override_cex :
  has_flag (p_flags (params_with 8 5)) (IORING_SETUP_CQSIZE (KernelAbi := linux_abi)) = true
  /\ cq_entries (params_with 8 5) < roundup_pow2 8
  /\ fst (io_uring_mlock_size_params (abi := linux_abi) 8 (params_with 8 5)
            zero_ring (granting_world 0)) = 8192
  /\ fst (io_uring_mlock_size_params (abi := linux_abi) 8 (params_with 8 5)
            zero_ring (granting_world 0)) <> - EINVAL.
Proof. vm_compute. repeat split; discriminate. Qed.

(** C8 as stated fails on a ring with two ring mappings: the
    submission-side region is unmapped before the completion-side
    region, not after it. *)
Lemma queue_exit_order_cex :
  let I := io_uring_queue_init_params (abi := linux_abi) 8 zero_ring
             zero_params (granting_world 0) in
  let ring := snd (fst (fst I)) in
  let w := snd I in
  fst (fst (fst I)) = 0
  /\ sq_ring_ptr (sq ring) = 4096 /\ cq_ring_ptr (cq ring) = 8192
  /\ trace (snd (io_uring_queue_exit (abi := linux_abi) ring w))
     = trace w ++ [EvMunmap 12288 512; EvMunmap 4096 608;
                   EvMunmap 8192 576; EvClose 3]
  /\ trace (snd (io_uring_queue_exit (abi := linux_abi) ring w))
     <> trace w ++ teardown_calls_as_specified (abi := linux_abi) ring
                     (u32 (shared w (sq_kring_entries (sq ring)))).
Proof. vm_compute. repeat split; discriminate. Qed.

(** ** Further properties of the bit math *)

(** [__fls] returns 0 for 0 and otherwise the 1-based position of the
    highest set bit of a 32-bit pattern. *)
Theorem fls_highest_bit (x : Z) :
  0 <= x < 2 ^ 32 ->
  (x = 0 -> __fls x = 0)
  /\ (0 < x ->
      1 <= __fls x <= 32 /\ 2 ^ (__fls x - 1) <= x < 2 ^ __fls x
      /\ __fls x = Z.log2 x + 1).
Proof.
  intros Hx. split.
  - intros ->. reflexivity.
  - intros Hpos. destruct (fls_bounds x) as [Hb Hp]; [lia |].
    split; [exact Hb |]. split; [exact Hp |]. apply fls_log2. lia.
Qed.

Lemma fls_highest_bit_witness : __fls 0x00012345 = 17.
Proof.
  destruct (fls_highest_bit 0x00012345 ltac:(lia)) as [_ H].
  destruct (H ltac:(lia)) as (_ & _ & E). rewrite E. reflexivity.
Defined.

Lemma fls_le_mono (x y : Z) :
  0 <= x <= y -> y < 2 ^ 32 -> __fls x <= __fls y.
Proof.
  intros Hxy Hy.
  destruct (Z.eq_dec x 0) as [-> | Hx].
  - change (__fls 0) with 0.
    destruct (Z.eq_dec y 0) as [-> | Hy0]; [reflexivity |].
    destruct (fls_bounds y); lia.
  - rewrite (fls_log2 x), (fls_log2 y) by lia.
    pose proof (Z.log2_le_mono x y ltac:(lia)). lia.
Qed.

(** [__fls] never decreases when its argument grows. *)
Theorem fls_monotone (x y : Z) :
  0 <= x <= y -> y < 2 ^ 32 -> __fls x <= __fls y.
Proof. apply fls_le_mono. Qed.

Lemma fls_monotone_witness : __fls 1000 <= __fls 70000.
Proof. exact (fls_monotone 1000 70000 ltac:(lia) ltac:(lia)). Defined.

(** [npages] is the base-2 logarithm, rounded up, of the number of pages
    that hold [size] bytes: [2 ^ npages] pages hold them, and half as
    many do not. *)
Theorem npages_log2_pages (size ps : Z) :
  1 <= size < 2 ^ 32 -> 0 < ps ->
  npages size ps = Z.log2_up (ceil_div size ps)
  /\ 0 <= npages size ps <= 32
  /\ size <= 2 ^ npages size ps * ps
  /\ (0 < npages size ps -> 2 ^ (npages size ps - 1) * ps < size).
Proof.
  intros Hs Hps. unfold npages.
  rewrite ceil_div_pred by exact Hps.
  assert (Hu : u64 (size - 1) = size - 1) by (unfold u64; apply Z.mod_small; lia).
  rewrite Hu. set (k := (size - 1) / ps).
  assert (Hk : 0 <= k) by (apply Z.div_pos; lia).
  assert (Hlo : k * ps <= size - 1).
  { unfold k. rewrite Z.mul_comm. apply Z.mul_div_le. exact Hps. }
  assert (Hhi : size - 1 < (k + 1) * ps).
  { unfold k. pose proof (Z.mul_succ_div_gt (size - 1) ps Hps). lia. }
  assert (Hk32 : k < 2 ^ 32) by nia.
  assert (Hu32 : u32 k = k) by (unfold u32; apply Z.mod_small; lia).
  rewrite Hu32.
  destruct (Z.eq_dec k 0) as [E | Hne].
  - rewrite E. change (__fls 0) with 0. change (Z.log2_up (0 + 1)) with 0.
    change (2 ^ 0) with 1. repeat split; try lia.
  - destruct (fls_bounds k) as [Hb Hp]; [lia |].
    assert (El : Z.log2_up (k + 1) = __fls k).
    { rewrite Z.log2_up_eqn by lia. rewrite fls_log2 by lia.
      replace (Z.pred (k + 1)) with k by lia. lia. }
    split; [symmetry; exact El |]. split; [lia |].
    split; [| intros _]; nia.
Qed.

Lemma npages_log2_pages_witness : npages 16704 4096 = 3.
Proof.
  rewrite (proj1 (npages_log2_pages 16704 4096 ltac:(lia) ltac:(lia))).
  reflexivity.
Defined.

(** A size of 0 is not zero pages: [size--] wraps, and for a page size
    that is a power of two an [unsigned] can hold the result is 32. *)
Theorem npages_zero_wraps (k : Z) :
  0 <= k <= 31 -> npages 0 (2 ^ k) = 32.
Proof.
  intros Hk. unfold npages.
  change (u64 (0 - 1)) with (2 ^ 64 - 1).
  assert (Hpk : 0 < 2 ^ k) by (apply Z.pow_pos_nonneg; lia).
  assert (Hsplit : 2 ^ 64 = 2 ^ (64 - k) * 2 ^ k).
  { rewrite <- Z.pow_add_r by lia. f_equal. lia. }
  assert (Hq : (2 ^ 64 - 1) / 2 ^ k = 2 ^ (64 - k) - 1).
  { symmetry. apply Z.div_unique with (r := 2 ^ k - 1); [lia | nia]. }
  rewrite Hq.
  assert (H32 : 2 ^ (64 - k) = 2 ^ (32 - k) * 2 ^ 32).
  { rewrite <- Z.pow_add_r by lia. f_equal. lia. }
  assert (Hp32 : 0 < 2 ^ (32 - k)) by (apply Z.pow_pos_nonneg; lia).
  assert (Hu : u32 (2 ^ (64 - k) - 1) = 2 ^ 32 - 1).
  { unfold u32. symmetry.
    apply Z.mod_unique with (q := 2 ^ (32 - k) - 1); [lia | nia]. }
  rewrite Hu. reflexivity.
Qed.

Lemma npages_zero_wraps_witness : npages 0 4096 = 32.
Proof. exact (npages_zero_wraps 12 ltac:(lia)). Defined.

Lemma whole_pages_cover (size ps : Z) :
  1 <= size -> 0 < ps ->
  size <= whole_pages size ps * ps /\ 1 <= whole_pages size ps.
Proof.
  intros Hs Hps. unfold whole_pages, pageCountLog2.
  rewrite ceil_div_pred by exact Hps.
  set (k := (size - 1) / ps).
  assert (Hk : 0 <= k) by (apply Z.div_pos; lia).
  assert (Hhi : size - 1 < (k + 1) * ps).
  { unfold k. pose proof (Z.mul_succ_div_gt (size - 1) ps Hps). lia. }
  destruct (Z.eq_dec k 0) as [E | Hne].
  - rewrite E. change (Z.log2_up (0 + 1)) with 0. change (2 ^ 0) with 1. lia.
  - destruct (Z.log2_up_spec (k + 1)) as [_ Hup]; [lia |].
    split; nia.
Qed.

Section SizeFacts.
Context {abi : KernelAbi}.

(** [rings_size] never under-estimates: for validated depths the result
    is a whole number of pages, at least two, that covers the completion
    bytes and the entry-array bytes, and it is at most two pages more
    than twice those bytes. *)
Theorem rings_size_covers (entries cq_entries ps : Z) :
  abi_sizes_ok ->
  1 <= entries <= KERN_MAX_ENTRIES ->
  1 <= cq_entries <= KERN_MAX_CQ_ENTRIES ->
  0 < ps < 2 ^ 32 ->
  KRING_SIZE + cq_entries * sizeof_cqe + entries * sizeof_sqe
    <= rings_size entries cq_entries ps
  /\ rings_size entries cq_entries ps mod ps = 0
  /\ 2 * ps <= rings_size entries cq_entries ps
  /\ rings_size entries cq_entries ps
     <= 2 * ps + 2 * (round_up_64 (KRING_SIZE + cq_entries * sizeof_cqe)
                      + entries * sizeof_sqe).
Proof.
  intros Habi He Hc Hps.
  destruct (rings_size_locked_bytes entries cq_entries ps Habi He Hc Hps)
    as [E _].
  rewrite E. unfold locked_bytes. change KRING_SIZE with 320.
  destruct Habi as [[Hs1 Hs2] [Hc1 Hc2]].
  unfold KERN_MAX_CQ_ENTRIES, KERN_MAX_ENTRIES in *.
  set (cqb := round_up_64 (320 + cq_entries * sizeof_cqe)).
  assert (Hprod : 1 <= cq_entries * sizeof_cqe <= 65536 * 4096) by nia.
  assert (Hsq : 1 <= entries * sizeof_sqe <= 32768 * 4096) by nia.
  assert (Hcqb : 320 + cq_entries * sizeof_cqe <= cqb
                 /\ cqb <= 65536 * 4096 + 384).
  { unfold cqb, round_up_64. rewrite ceil_div_pred by lia.
    pose proof (Z.mul_div_le (320 + cq_entries * sizeof_cqe - 1) 64 ltac:(lia)).
    pose proof (Z.mul_succ_div_gt (320 + cq_entries * sizeof_cqe - 1) 64 ltac:(lia)).
    lia. }
  destruct (whole_pages_cover cqb ps) as [A1 A2]; [lia | lia |].
  destruct (whole_pages_cover (entries * sizeof_sqe) ps) as [B1 B2]; [lia | lia |].
  destruct (shift_npages cqb ps) as (_ & _ & A3); [lia | lia |].
  destruct (shift_npages (entries * sizeof_sqe) ps) as (_ & _ & B3); [lia | lia |].
  split; [nia |]. split; [apply Z.mod_mul; lia |]. split; nia.
Qed.

End SizeFacts.

Lemma rings_size_covers_witness :
  320 + 1024 * 16 + 512 * 64 <= rings_size (abi := linux_abi) 512 1024 4096.
Proof.
  exact (proj1 (rings_size_covers (abi := linux_abi) 512 1024 4096
                  ltac:(vm_compute; intuition discriminate)
                  ltac:(vm_compute; intuition discriminate)
                  ltac:(vm_compute; intuition discriminate)
                  ltac:(lia))).
Defined.

(** ** Fork advice *)

Section DontforkFacts.
Context {abi : KernelAbi}.

(** A ring with a missing submission ring, entry array or completion
    ring is turned down with [-EINVAL] before any [madvise]. *)
Theorem dontfork_uninitialised (ring : io_uring) (a : advice_world) :
  sq_ring_ptr (sq ring) = NULL \/ sq_sqes (sq ring) = NULL
  \/ cq_ring_ptr (cq ring) = NULL ->
  io_uring_ring_dontfork ring a = (- EINVAL, a).
Proof.
  intros H. unfold io_uring_ring_dontfork.
  destruct H as [H | [H | H]]; rewrite H; cbn [Z.eqb NULL orb];
    rewrite ?orb_true_r; reflexivity.
Qed.

Lemma dontfork_plan (ring : io_uring) (a : advice_world) :
  sq_ring_ptr (sq ring) <> NULL -> sq_sqes (sq ring) <> NULL ->
  cq_ring_ptr (cq ring) <> NULL ->
  let n := u32 (shared (host a) (sq_kring_entries (sq ring))) in
  let plan := advise_all (ring_regions ring n) (madvise_oracle a) in
  fst (io_uring_ring_dontfork ring a)
  = match snd plan with None => 0 | Some e => - Zpos e end
  /\ madvise_calls (snd (io_uring_ring_dontfork ring a))
     = madvise_calls a ++ fst plan
  /\ mappings (host (snd (io_uring_ring_dontfork ring a))) = mappings (host a)
  /\ fds (host (snd (io_uring_ring_dontfork ring a))) = fds (host a).
Proof.
  intros H1 H2 H3. unfold io_uring_ring_dontfork, ring_regions.
  apply Z.eqb_neq in H1, H2, H3. rewrite H1, H2, H3. cbn [orb].
  destruct a as [w mo calls]. cbv zeta. unfold madvise. cbn [madvise_oracle host madvise_calls].
  destruct mo as [| [e1 |] [| [e2 |] [| [e3 |] mo]]];
    destruct (cq_ring_ptr (cq ring) =? sq_ring_ptr (sq ring));
    cbn; rewrite <- ?app_assoc; auto.
Qed.

(** On any other ring the entry array, the submission ring and, when its
    base differs, the completion ring are advised in that order, up to
    the first [madvise] that fails; the result is 0 when none fails and
    the negated [errno] of the failure otherwise. *)
Theorem dontfork_advises_in_order (ring : io_uring) (a : advice_world) :
  sq_ring_ptr (sq ring) <> NULL -> sq_sqes (sq ring) <> NULL ->
  cq_ring_ptr (cq ring) <> NULL ->
  let n := u32 (shared (host a) (sq_kring_entries (sq ring))) in
  let plan := advise_all (ring_regions ring n) (madvise_oracle a) in
  fst (io_uring_ring_dontfork ring a)
  = match snd plan with None => 0 | Some e => - Zpos e end
  /\ madvise_calls (snd (io_uring_ring_dontfork ring a))
     = madvise_calls a ++ fst plan
  /\ mappings (host (snd (io_uring_ring_dontfork ring a))) = mappings (host a)
  /\ fds (host (snd (io_uring_ring_dontfork ring a))) = fds (host a).
Proof. apply dontfork_plan. Qed.

End DontforkFacts.

Lemma dontfork_uninitialised_witness :
  io_uring_ring_dontfork (abi := linux_abi) zero_ring (advising (granting_world 0) 3)
  = (- EINVAL, advising (granting_world 0) 3).
Proof.
  exact (dontfork_uninitialised (abi := linux_abi) zero_ring
           (advising (granting_world 0) 3) (or_introl eq_refl)).
Defined.

(** ** Allocation of the probe *)

Section ProbeAlloc.
Context {abi : KernelAbi}.

(** [io_uring_get_probe_ring] returns the block it allocated when the
    query succeeds; it returns [NULL] when the allocation fails, and
    when the query fails, after it has freed the block. *)
Theorem get_probe_ring_alloc (ring : io_uring) (w : world) :
  let len := u64 (sizeof_probe + u64 (256 * sizeof_probe_op)) in
  let '(probe, w') := io_uring_get_probe_ring ring w in
  (probe <> NULL
   /\ exists r, 0 <= r
      /\ trace w' = trace w ++ [EvMalloc len probe;
                                EvRegisterProbe (ring_fd ring) probe 256 r])
  \/ (probe = NULL /\ trace w' = trace w ++ [EvMalloc len NULL])
  \/ (probe = NULL
      /\ exists blk r, blk <> NULL /\ r < 0
         /\ trace w' = trace w ++ [EvMalloc len blk;
                                   EvRegisterProbe (ring_fd ring) blk 256 r;
                                   EvFree blk]).
Proof.
  unfold io_uring_get_probe_ring, bind, malloc, io_uring_register_probe,
    free, ret. cbv zeta.
  destruct w as [so mo mao po ps sh er maps fds tr]. cbn.
  destruct mao as [| [blk |] mao]; cbn; auto.
  destruct po as [| q po]; cbn.
  - right; right. split; [reflexivity |]. exists (Z.pos blk), (-1).
    rewrite <- !app_assoc. cbn. intuition (try discriminate; try lia).
  - destruct (Z.leb_spec 0 q); cbn.
    + left. split; [discriminate |]. exists q.
      rewrite <- !app_assoc. auto.
    + right; right. split; [reflexivity |]. exists (Z.pos blk), q.
      rewrite <- !app_assoc. cbn. intuition (try discriminate; try lia).
Qed.

End ProbeAlloc.

Lemma dontfork_advises_in_order_witness :
  fst (io_uring_ring_dontfork (abi := linux_abi) demo_ring
         (advising demo_ring_world 3)) = 0
  /\ madvise_calls (snd (io_uring_ring_dontfork (abi := linux_abi) demo_ring
                           (advising demo_ring_world 3)))
     = [(12288, 512, 0); (4096, 608, 0); (8192, 576, 0)].
Proof.
  destruct (dontfork_advises_in_order (abi := linux_abi) demo_ring
              (advising demo_ring_world 3)
              ltac:(vm_compute; discriminate) ltac:(vm_compute; discriminate)
              ltac:(vm_compute; discriminate)) as (H1 & H2 & _).
  rewrite H1, H2. vm_compute. split; reflexivity.
Defined.

(** ** Creating and destroying a ring *)

Lemma drop_fresh (l : list (Z * Z)) (a len : Z) :
  existsb (Z.eqb a) (map fst l) = false -> drop_mapping (a, len) l = l.
Proof. apply filter_fresh. Qed.

Lemma drop_app (m : Z * Z) (l1 l2 : list (Z * Z)) :
  drop_mapping m (l1 ++ l2) = drop_mapping m l1 ++ drop_mapping m l2.
Proof. apply filter_app. Qed.

Lemma drop_same (m : Z * Z) : drop_mapping m [m] = [].
Proof.
  unfold drop_mapping, mapping_eqb. cbn. rewrite !Z.eqb_refl. reflexivity.
Qed.

Lemma drop_other (a len b len' : Z) :
  (b =? a) = false -> drop_mapping (a, len) [(b, len')] = [(b, len')].
Proof.
  intros H. unfold drop_mapping, mapping_eqb. cbn. rewrite H. reflexivity.
Qed.

Lemma drop_nil (m : Z * Z) : drop_mapping m [] = [].
Proof. reflexivity. Qed.

Section Lifecycle.
Context {abi : KernelAbi}.

Lemma queue_exit_effect (ring : io_uring) (w : world) :
  mappings (snd (io_uring_queue_exit ring w))
  = after_teardown (sq ring) (cq ring)
      (u64 (u32 (shared w (sq_kring_entries (sq ring))) * sizeof_sqe))
      (mappings w)
  /\ fds (snd (io_uring_queue_exit ring w))
     = filter (fun d => negb (d =? ring_fd ring)) (fds w)
  /\ shared (snd (io_uring_queue_exit ring w)) = shared w.
Proof.
  unfold io_uring_queue_exit, io_uring_unmap_rings, after_teardown,
    drop_mapping, bind, load, munmap, close, ret.
  cbn.
  destruct (negb (cq_ring_ptr (cq ring) =? NULL)
            && negb (cq_ring_ptr (cq ring) =? sq_ring_ptr (sq ring)));
    auto.
Qed.

End Lifecycle.

Section MmapShape.
Context {abi : KernelAbi}.

Lemma distinct2 (a b : positive) :
  distinct [Z.pos a; Z.pos b] = true ->
  (a =? b)%positive = false /\ (b =? a)%positive = false.
Proof.
  cbn. rewrite orb_false_r, andb_true_r. intros H.
  apply negb_true_iff in H. split; [exact H | rewrite Pos.eqb_sym; exact H].
Qed.

Lemma distinct3 (a b c : positive) :
  distinct [Z.pos a; Z.pos b; Z.pos c] = true ->
  ((a =? b)%positive = false /\ (b =? a)%positive = false)
  /\ ((a =? c)%positive = false /\ (c =? a)%positive = false)
  /\ ((b =? c)%positive = false /\ (c =? b)%positive = false).
Proof.
  cbn. rewrite !orb_false_r, !andb_true_r. intros H.
  apply andb_true_iff in H. destruct H as [H1 H2].
  apply negb_true_iff in H1, H2. apply orb_false_iff in H1.
  destruct H1 as [H1 H3].
  rewrite (Pos.eqb_sym b a), (Pos.eqb_sym c a), (Pos.eqb_sym c b). auto.
Qed.

(** What a failed [io_uring_mmap] leaves. *)
Lemma io_uring_mmap_failed (fd : Z) (p : io_uring_params)
    (s : io_uring_sq) (c : io_uring_cq) (w : world)
    (r : Z) (s' : io_uring_sq) (c' : io_uring_cq) (w1 : world) :
  mmap_fresh 3 w = true ->
  io_uring_mmap fd p s c w = (r, s', c', w1) ->
  r <> 0 ->
  r < 0 /\ mappings w1 = mappings w /\ fds w1 = fds w.
Proof.
  intros Hfresh. unfold io_uring_mmap. cbv zeta.
  fold (sq_region_len p). fold (cq_region_len p). fold (sqes_len p).
  set (s1 := set_sq_ring_sz s (sq_region_len p)).
  set (c1 := set_cq_ring_sz c (cq_region_len p)).
  set (s2 := if has_flag _ _ then _ else s1).
  set (c2 := if has_flag _ _ then _ else c1).
  clearbody s2 c2. clear s1 c1.
  destruct w as [so mo mao po ps sh er maps fds tr].
  unfold mmap_fresh in Hfresh. cbn [mappings mmap_oracle] in Hfresh.
  destruct (has_flag (features p) IORING_FEAT_SINGLE_MMAP);
  destruct mo as [|[a1|e1] [|[a2|e2] [|[a3|e3] mo]]]; run_mmap.
  all: cbn [firstn granted] in Hfresh.
  all: apply andb_true_iff in Hfresh; destruct Hfresh as [Hd Hf].
  all: try (pose proof (fresh_in _ _ (Z.pos a1) Hf ltac:(cbn; auto)) as F1).
  all: try (pose proof (fresh_in _ _ (Z.pos a2) Hf ltac:(cbn; auto)) as F2).
  all: cbn in Hd.
  all: try (rewrite ?orb_false_r, ?andb_true_r in Hd;
            apply negb_true_iff in Hd; rewrite Pos.eqb_sym in Hd).
  all: rewrite ?Pos.eqb_refl; try rewrite Hd.
  all: cbn -[Z.mul Z.add Z.ltb sqes_len mapping_eqb filter].
  all: intros H Hr; inversion H; subst; clear H; try congruence.
  all: cbn -[Z.mul Z.add Z.ltb sqes_len mapping_eqb filter].
  all: (split; [reflexivity |]).
  all: split; [| reflexivity].
  all: rewrite ?(unmap_inner _ _ _ _ _ F1) by (cbn; assumption);
       rewrite ?unmap_last by assumption; reflexivity.
Qed.

(** What a successful [io_uring_mmap] makes. *)
Lemma io_uring_mmap_made (fd : Z) (p : io_uring_params)
    (s : io_uring_sq) (c : io_uring_cq) (w : world)
    (s' : io_uring_sq) (c' : io_uring_cq) (w1 : world) :
  mmap_fresh 3 w = true ->
  io_uring_mmap fd p s c w = (0, s', c', w1) ->
  fds w1 = fds w /\ shared w1 = shared w
  /\ (exists a1 rest,
        mmap_oracle w = MmapOk a1 :: rest /\ sq_ring_ptr s' = Z.pos a1)
  /\ sq_kring_entries s' = sq_ring_ptr s' + sqo_ring_entries (sq_off p)
  /\ (sq_ring_ptr s' <> NULL /\ sq_sqes s' <> NULL /\ cq_ring_ptr c' <> NULL)
  /\ mappings w1 = mappings w ++ ring_mappings s' c' (sqes_len p)
  /\ after_teardown s' c' (sqes_len p) (mappings w1) = mappings w.
Proof.
  intros Hfresh. unfold io_uring_mmap. cbv zeta.
  fold (sq_region_len p). fold (cq_region_len p). fold (sqes_len p).
  set (s1 := set_sq_ring_sz s (sq_region_len p)).
  set (c1 := set_cq_ring_sz c (cq_region_len p)).
  set (s2 := if has_flag _ _ then _ else s1).
  set (c2 := if has_flag _ _ then _ else c1).
  clearbody s2 c2. clear s1 c1.
  destruct w as [so mo mao po ps sh er maps fds tr].
  unfold mmap_fresh in Hfresh. cbn [mappings mmap_oracle] in Hfresh.
  destruct (has_flag (features p) IORING_FEAT_SINGLE_MMAP);
  destruct mo as [|[a1|e1] [|[a2|e2] [|[a3|e3] mo]]]; run_mmap.
  all: rewrite ?Pos.eqb_refl.
  all: cbn -[Z.mul Z.add Z.ltb sqes_len mapping_eqb filter].
  all: try (intros H; exfalso; revert H;
            repeat match goal with
                   | |- context [if ?b then _ else _] => destruct b
                   end; cbn; intros H; inversion H; fail).
  all: intros H; inversion H; subst; clear H.
  all: cbn [firstn granted] in Hfresh.
  all: apply andb_true_iff in Hfresh; destruct Hfresh as [Hd Hf].
  all: pose proof (fresh_in _ _ (Z.pos a1) Hf ltac:(cbn; auto)) as F1.
  all: pose proof (fresh_in _ _ (Z.pos a2) Hf ltac:(cbn; auto)) as F2.
  all: try (pose proof (fresh_in _ _ (Z.pos a3) Hf ltac:(cbn; auto)) as F3).
  all: first [ apply distinct3 in Hd; destruct Hd as ((D12 & D21) & (D13 & D31) & (D23 & D32))
             | apply distinct2 in Hd; destruct Hd as (D12 & D21) ].
  all: unfold after_teardown, ring_mappings.
  all: cbn -[Z.mul Z.add Z.ltb sqes_len mapping_eqb filter drop_mapping].
  all: rewrite ?Pos.eqb_refl, ?D12, ?D21; cbn [negb andb app].
  all: unfold NULL.
  all: repeat match goal with |- _ /\ _ => split end.
  all: try reflexivity; try discriminate.
  all: try (do 2 eexists; split; reflexivity).
  all: try (rewrite <- ?app_assoc; reflexivity).
  all: repeat first
         [ rewrite drop_app
         | rewrite (drop_fresh maps) by assumption
         | rewrite drop_same
         | rewrite drop_other by (cbn; assumption)
         | rewrite drop_nil
         | rewrite app_nil_r ].
  all: reflexivity.
Qed.

End MmapShape.

Section InitShape.
Context {abi : KernelAbi}.

(** The pointers a successful [io_uring_mmap] leaves in the two
    descriptors. *)
Lemma io_uring_mmap_resolved (fd : Z) (p : io_uring_params)
    (s : io_uring_sq) (c : io_uring_cq) (w : world)
    (s' : io_uring_sq) (c' : io_uring_cq) (w1 : world) :
  io_uring_mmap fd p s c w = (0, s', c', w1) ->
  resolve_sq s' (sq_off p) = s' /\ resolve_cq c' (cq_off p) = c'
  /\ (cqo_flags (cq_off p) = 0 -> cq_kflags c' = cq_kflags c)
  /\ 0 < sq_ring_ptr s' /\ 0 < sq_sqes s' /\ 0 < cq_ring_ptr c'.
Proof.
  unfold io_uring_mmap. cbv zeta.
  fold (sq_region_len p). fold (cq_region_len p). fold (sqes_len p).
  set (s1 := set_sq_ring_sz s (sq_region_len p)).
  set (c1 := set_cq_ring_sz c (cq_region_len p)).
  set (s2 := if has_flag _ _ then _ else s1).
  set (c2 := if has_flag _ _ then _ else c1).
  assert (Hk : cq_kflags c2 = cq_kflags c).
  { unfold c2, c1. destruct (has_flag _ _); reflexivity. }
  clearbody s2 c2. clear s1 c1.
  destruct w as [so mo mao po ps sh er maps fds tr].
  destruct (has_flag (features p) IORING_FEAT_SINGLE_MMAP);
  destruct mo as [|[a1|e1] [|[a2|e2] [|[a3|e3] mo]]]; run_mmap.
  all: try (intros H; exfalso; revert H;
            repeat match goal with
                   | |- context [if ?b then _ else _] => destruct b
                   end; cbn; intros H; inversion H; fail).
  all: intros H; inversion H; subst; clear H.
  all: unfold resolve_cq, resolve_sq;
       cbn -[Z.mul Z.add Z.ltb sqes_len].
  all: destruct (Z.eqb_spec (cqo_flags (cq_off p)) 0) as [E0 | E0].
  all: repeat match goal with |- _ /\ _ => split end.
  all: try reflexivity; try (intros; assumption); try (intros; contradiction).
Qed.

Lemma io_uring_mmap_frame (fd : Z) (p : io_uring_params)
    (s : io_uring_sq) (c : io_uring_cq) (w : world) :
  fds (snd (io_uring_mmap fd p s c w)) = fds w
  /\ shared (snd (io_uring_mmap fd p s c w)) = shared w.
Proof.
  unfold io_uring_mmap. cbv zeta.
  set (s2 := if has_flag _ _ then _ else _).
  set (c2 := if has_flag _ _ then _ else _).
  clearbody s2 c2.
  destruct w as [so mo mao po ps sh er maps fdl tr].
  destruct (has_flag (features p) IORING_FEAT_SINGLE_MMAP);
    destruct mo as [|[a1|e1] [|[a2|e2] [|[a3|e3] mo]]]; run_mmap;
    repeat match goal with
           | |- context [if ?b then _ else _] => destruct b
           end; split; reflexivity.
Qed.

Lemma filter_absent (d : Z) (l : list Z) :
  existsb (Z.eqb d) l = false -> filter (fun x => negb (x =? d)) l = l.
Proof.
  induction l as [| x l IH]; cbn; [reflexivity |].
  intros H. apply orb_false_iff in H. destruct H as [Hx Hl].
  rewrite Z.eqb_sym, Hx. cbn. f_equal. exact (IH Hl).
Qed.

Lemma queue_init_params_failed (entries : Z) (ring : io_uring)
    (p : io_uring_params) (w : world)
    (r : Z) (ring' : io_uring) (p' : io_uring_params) (w1 : world) :
  mmap_fresh 3 w = true -> setup_fresh w = true ->
  io_uring_queue_init_params entries ring p w = (r, ring', p', w1) ->
  r <> 0 ->
  r < 0 /\ mappings w1 = mappings w /\ fds w1 = fds w.
Proof.
  intros Hfresh Hfd.
  unfold io_uring_queue_init_params, bind, __sys_io_uring_setup, get_errno, ret.
  destruct w as [so mo mao po ps sh er maps fdl tr].
  unfold setup_fresh in Hfd. cbn [setup_oracle fds] in *.
  destruct so as [| [fd q | e] so]; cbn.
  - intros H _; inversion H; subst. cbn. repeat split.
  - assert ((Z.of_N fd <? 0) = false) as -> by (apply Z.ltb_ge; lia).
    unfold io_uring_queue_mmap, bind. cbn [sq cq zero_ring].
    match goal with
    | |- context [io_uring_mmap ?a ?b ?c ?d ?w0] =>
        destruct (io_uring_mmap a b c d w0) as [[[r0 s'] c'] w'] eqn:E
    end.
    destruct (Z.eqb_spec r0 0) as [-> | Hne]; cbn.
    + intros H Hr; inversion H; subst. congruence.
    + apply Z.eqb_neq in Hne as Hb. rewrite Hb. cbn. unfold close, ret.
      intros H _; inversion H; subst. clear H.
      match type of E with
      | io_uring_mmap _ _ _ _ ?W = _ =>
          assert (HW : mmap_fresh 3 W = true) by exact Hfresh
      end.
      destruct (io_uring_mmap_failed _ _ _ _ _ _ _ _ _ HW E Hne)
        as (Hlt & Hm & Hf).
      cbn in Hm, Hf. cbn. rewrite Hm, Hf. cbn.
      rewrite Z.eqb_refl. cbn.
      split; [exact Hlt |]. split; [reflexivity |].
      apply filter_absent. apply negb_true_iff. exact Hfd.
  - intros H _; inversion H; subst. cbn. repeat split.
Qed.

Lemma queue_init_params_made (entries : Z) (ring : io_uring)
    (p : io_uring_params) (w : world)
    (ring' : io_uring) (p' : io_uring_params) (w1 : world) :
  io_uring_queue_init_params entries ring p w = (0, ring', p', w1) ->
  (exists fd rest,
     setup_oracle w = SetupOk fd p' :: rest
     /\ ring_fd ring' = Z.of_N fd /\ fds w1 = Z.of_N fd :: fds w)
  /\ ring_flags ring' = p_flags p' /\ ring_features ring' = features p'
  /\ resolve_sq (sq ring') (sq_off p') = sq ring'
  /\ resolve_cq (cq ring') (cq_off p') = cq ring'
  /\ (cqo_flags (cq_off p') = 0 -> cq_kflags (cq ring') = NULL)
  /\ (0 < sq_ring_ptr (sq ring') /\ 0 < sq_sqes (sq ring')
      /\ 0 < cq_ring_ptr (cq ring'))
  /\ (mmap_fresh 3 w = true ->
      shared w1 = shared w
      /\ (exists a1 rest,
            mmap_oracle w = MmapOk a1 :: rest
            /\ sq_ring_ptr (sq ring') = Z.pos a1)
      /\ mappings w1
         = mappings w ++ ring_mappings (sq ring') (cq ring') (sqes_len p')
      /\ after_teardown (sq ring') (cq ring') (sqes_len p') (mappings w1)
         = mappings w).
Proof.
  unfold io_uring_queue_init_params, bind, __sys_io_uring_setup, get_errno, ret.
  destruct w as [so mo mao po ps sh er maps fdl tr].
  cbn [setup_oracle fds].
  destruct so as [| [fd q | e] so]; cbn;
    [intros H; inversion H | | intros H; inversion H].
  assert ((Z.of_N fd <? 0) = false) as -> by (apply Z.ltb_ge; lia).
  unfold io_uring_queue_mmap, bind. cbn [sq cq zero_ring].
  match goal with
  | |- context [io_uring_mmap ?a ?b ?c ?d ?w0] =>
      destruct (io_uring_mmap a b c d w0) as [[[r0 s'] c'] w'] eqn:E
  end.
  destruct (Z.eqb_spec r0 0) as [-> | Hne]; cbn.
  - intros H; inversion H; subst. clear H. cbn.
    destruct (io_uring_mmap_resolved _ _ _ _ _ _ _ _ E)
      as (R1 & R2 & R3 & R4).
    match type of E with
    | io_uring_mmap ?a ?b ?c ?d ?W = _ =>
        destruct (io_uring_mmap_frame a b c d W) as [Ff Fs];
        rewrite E in Ff, Fs; cbn in Ff, Fs
    end.
    split; [exists fd, so; auto |].
    split; [reflexivity |]. split; [reflexivity |].
    split; [exact R1 |]. split; [exact R2 |].
    split; [intros H0; rewrite (R3 H0); reflexivity |].
    split; [exact R4 |].
    intros Hfresh.
    match type of E with
    | io_uring_mmap _ _ _ _ ?W = _ =>
        assert (HW : mmap_fresh 3 W = true) by exact Hfresh
    end.
    destruct (io_uring_mmap_made _ _ _ _ _ _ _ _ HW E)
      as (_ & _ & Ha & _ & _ & Hm & Ht).
    cbn in Ha, Hm, Ht. auto.
  - apply Z.eqb_neq in Hne as Hb. rewrite Hb. cbn. unfold close, ret.
    intros H; inversion H; subst. congruence.
Qed.

(** A ring that could not be created leaves nothing behind: the result
    is negative, the descriptor the kernel returned has been closed and
    every mapping made has been unmapped. *)
Theorem queue_init_params_failure_clean (entries : Z) (ring : io_uring)
    (p : io_uring_params) (w : world)
    (r : Z) (ring' : io_uring) (p' : io_uring_params) (w1 : world) :
  mmap_fresh 3 w = true -> setup_fresh w = true ->
  io_uring_queue_init_params entries ring p w = (r, ring', p', w1) ->
  r <> 0 ->
  r < 0 /\ mappings w1 = mappings w /\ fds w1 = fds w.
Proof. apply queue_init_params_failed. Qed.

(** A created ring holds the descriptor and the resolved set-up flags
    and features, its descriptor is open, and every pointer of its two
    sides is the base of its region plus the offset the kernel reported;
    the completion flags pointer stays null when no offset is
    reported. *)
Theorem queue_init_params_resolves (entries : Z) (ring : io_uring)
    (p : io_uring_params) (w : world)
    (ring' : io_uring) (p' : io_uring_params) (w1 : world) :
  io_uring_queue_init_params entries ring p w = (0, ring', p', w1) ->
  let s := sq ring' in
  let c := cq ring' in
  In (ring_fd ring') (fds w1)
  /\ ring_flags ring' = p_flags p' /\ ring_features ring' = features p'
  /\ (sq_khead s = sq_ring_ptr s + sqo_head (sq_off p')
      /\ sq_ktail s = sq_ring_ptr s + sqo_tail (sq_off p')
      /\ sq_kring_mask s = sq_ring_ptr s + sqo_ring_mask (sq_off p')
      /\ sq_kring_entries s = sq_ring_ptr s + sqo_ring_entries (sq_off p')
      /\ sq_kflags s = sq_ring_ptr s + sqo_flags (sq_off p')
      /\ sq_kdropped s = sq_ring_ptr s + sqo_dropped (sq_off p')
      /\ sq_array s = sq_ring_ptr s + sqo_array (sq_off p'))
  /\ (cq_khead c = cq_ring_ptr c + cqo_head (cq_off p')
      /\ cq_ktail c = cq_ring_ptr c + cqo_tail (cq_off p')
      /\ cq_kring_mask c = cq_ring_ptr c + cqo_ring_mask (cq_off p')
      /\ cq_kring_entries c = cq_ring_ptr c + cqo_ring_entries (cq_off p')
      /\ cq_koverflow c = cq_ring_ptr c + cqo_overflow (cq_off p')
      /\ cq_cqes c = cq_ring_ptr c + cqo_cqes (cq_off p')
      /\ cq_kflags c = (if cqo_flags (cq_off p') =? 0 then NULL
                        else cq_ring_ptr c + cqo_flags (cq_off p')))
  /\ sq_ring_ptr s <> NULL /\ sq_sqes s <> NULL /\ cq_ring_ptr c <> NULL
  /\ sq_ring_ptr s <> MAP_FAILED /\ sq_sqes s <> MAP_FAILED
  /\ cq_ring_ptr c <> MAP_FAILED.
Proof.
  intros Hinit s c.
  destruct (queue_init_params_made _ _ _ _ _ _ _ Hinit)
    as ((fd & rest & _ & Hfd & Hfds) & Hfl & Hfe & R1 & R2 & R3 & R4 & _).
  fold s in R1, R4. fold c in R2, R3, R4.
  split; [rewrite Hfds, Hfd; left; reflexivity |].
  split; [exact Hfl |]. split; [exact Hfe |].
  split.
  { pose proof (f_equal sq_khead R1) as E1.
    pose proof (f_equal sq_ktail R1) as E2.
    pose proof (f_equal sq_kring_mask R1) as E3.
    pose proof (f_equal sq_kring_entries R1) as E4.
    pose proof (f_equal sq_kflags R1) as E5.
    pose proof (f_equal sq_kdropped R1) as E6.
    pose proof (f_equal sq_array R1) as E7.
    cbn in E1, E2, E3, E4, E5, E6, E7. auto 10. }
  split.
  - pose proof (f_equal cq_khead R2) as E1.
    pose proof (f_equal cq_ktail R2) as E2.
    pose proof (f_equal cq_kring_mask R2) as E3.
    pose proof (f_equal cq_kring_entries R2) as E4.
    pose proof (f_equal cq_koverflow R2) as E5.
    pose proof (f_equal cq_cqes R2) as E6.
    pose proof (f_equal cq_kflags R2) as E7.
    cbn in E1, E2, E3, E4, E5, E6, E7.
    destruct (Z.eqb_spec (cqo_flags (cq_off p')) 0) as [E0 | E0];
      [rewrite (R3 E0) | ]; auto 10.
  - unfold NULL, MAP_FAILED. lia.
Qed.

End InitShape.

Section RoundTrip.
Context {abi : KernelAbi}.

Lemma queue_init_exit (entries : Z) (ring : io_uring)
    (p : io_uring_params) (w : world)
    (ring' : io_uring) (p' : io_uring_params) (w1 : world) :
  mmap_fresh 3 w = true -> setup_fresh w = true ->
  entries_reported w = true ->
  io_uring_queue_init_params entries ring p w = (0, ring', p', w1) ->
  forall w2 : world,
    mappings w2 = mappings w1 -> fds w2 = fds w1 -> shared w2 = shared w1 ->
    mappings (snd (io_uring_queue_exit ring' w2)) = mappings w
    /\ fds (snd (io_uring_queue_exit ring' w2)) = fds w.
Proof.
  intros Hfresh Hfd Hrep Hinit w2 Hm Hf Hs.
  destruct (queue_init_params_made _ _ _ _ _ _ _ Hinit)
    as ((fd & rest & Hso & Hrfd & Hfds) & _ & _ & R1 & _ & _ & _ & Hmade).
  destruct (Hmade Hfresh) as (Hsh & (a1 & rest' & Hmo & Hptr) & _ & Ht).
  destruct (queue_exit_effect ring' w2) as (Em & Ef & _).
  rewrite Em, Ef, Hm, Hf, Hs, Hsh.
  pose proof (f_equal sq_kring_entries R1) as Ek. cbn in Ek.
  rewrite <- Ek, Hptr.
  unfold entries_reported in Hrep. rewrite Hso, Hmo in Hrep.
  apply Z.eqb_eq in Hrep. rewrite Hrep.
  split; [exact Ht |].
  rewrite Hfds, Hrfd. cbn. rewrite Z.eqb_refl. cbn.
  apply filter_absent.
  unfold setup_fresh in Hfd. rewrite Hso in Hfd.
  apply negb_true_iff. exact Hfd.
Qed.

(** Creating a ring and destroying it leaves the mappings and the open
    descriptors as they were, on a kernel whose ring-entries field holds
    the granted submission entry count. *)
Theorem queue_init_exit_roundtrip (entries : Z) (ring : io_uring)
    (p : io_uring_params) (w : world)
    (ring' : io_uring) (p' : io_uring_params) (w1 : world) :
  mmap_fresh 3 w = true -> setup_fresh w = true ->
  entries_reported w = true ->
  io_uring_queue_init_params entries ring p w = (0, ring', p', w1) ->
  mappings w1 = mappings w ++ ring_mappings (sq ring') (cq ring') (sqes_len p')
  /\ fds w1 = ring_fd ring' :: fds w
  /\ mappings (snd (io_uring_queue_exit ring' w1)) = mappings w
  /\ fds (snd (io_uring_queue_exit ring' w1)) = fds w.
Proof.
  intros Hfresh Hfd Hrep Hinit.
  destruct (queue_init_params_made _ _ _ _ _ _ _ Hinit)
    as ((fd & rest & _ & Hrfd & Hfds) & _ & _ & _ & _ & _ & _ & Hmade).
  destruct (Hmade Hfresh) as (_ & _ & Hm & _).
  split; [exact Hm |]. split; [rewrite Hrfd; exact Hfds |].
  apply (queue_init_exit _ _ _ _ _ _ _ Hfresh Hfd Hrep Hinit); reflexivity.
Qed.

(** [io_uring_get_probe] leaves no mapping and no descriptor of its
    scratch ring behind, whether the ring could be created, and whether
    the allocation and the query succeeded, or not. *)
Theorem get_probe_leaves_nothing (ring : io_uring) (w : world) :
  mmap_fresh 3 w = true -> setup_fresh w = true ->
  entries_reported w = true ->
  mappings (snd (io_uring_get_probe ring w)) = mappings w
  /\ fds (snd (io_uring_get_probe ring w)) = fds w.
Proof.
  intros Hfresh Hfd Hrep.
  unfold io_uring_get_probe, io_uring_queue_init, bind.
  match goal with
  | |- context [io_uring_queue_init_params ?e ?r ?q w] =>
      destruct (io_uring_queue_init_params e r q w)
        as [[[r0 ring'] p'] w1] eqn:Hinit
  end.
  cbn [ret fst snd].
  destruct (Z.eq_dec r0 0) as [-> | Hne].
  - cbn [Z.ltb Z.compare].
    destruct (get_probe_ring_result ring' w1) as (_ & Hsh & Hf & Hm).
    destruct (io_uring_get_probe_ring ring' w1) as [probe w2].
    cbn [fst snd] in *.
    pose proof (queue_init_exit _ _ _ _ _ _ _ Hfresh Hfd Hrep Hinit
                  w2 Hm Hf Hsh) as H.
    destruct (io_uring_queue_exit ring' w2) as [u w3]. exact H.
  - destruct (queue_init_params_failed _ _ _ _ _ _ _ _
                Hfresh Hfd Hinit Hne) as (Hlt & Hm & Hf).
    apply Z.ltb_lt in Hlt. rewrite Hlt. cbn. auto.
Qed.

(** [io_uring_mlock_size_params] leaves no mapping and no descriptor of
    its throw-away ring behind, whatever it returns. *)
Theorem mlock_size_leaves_nothing (entries : Z) (p : io_uring_params)
    (ring : io_uring) (w : world) :
  mmap_fresh 3 w = true -> setup_fresh w = true ->
  entries_reported w = true ->
  mappings (snd (io_uring_mlock_size_params entries p ring w)) = mappings w
  /\ fds (snd (io_uring_mlock_size_params entries p ring w)) = fds w.
Proof.
  intros Hfresh Hfd Hrep.
  unfold io_uring_mlock_size_params, bind.
  destruct (io_uring_queue_init_params entries ring zero_params w)
    as [[[r0 ring'] lp] w1] eqn:Hinit.
  destruct (Z.eq_dec r0 0) as [-> | Hne].
  - cbn [Z.ltb Z.compare].
    pose proof (queue_init_exit _ _ _ _ _ _ _ Hfresh Hfd Hrep Hinit
                  w1 eq_refl eq_refl eq_refl) as H.
    destruct (io_uring_queue_exit ring' w1) as [u w2]. cbn [snd] in H.
    unfold sysconf_SC_PAGESIZE, ret.
    repeat match goal with
           | |- context [if ?b then _ else _] => destruct b
           end; exact H.
  - destruct (queue_init_params_failed _ _ _ _ _ _ _ _
                Hfresh Hfd Hinit Hne) as (Hlt & Hm & Hf).
    apply Z.ltb_lt in Hlt. rewrite Hlt. cbn. auto.
Qed.

End RoundTrip.

(** ** Tear-down of a created ring *)

Section TeardownOrder.
Context {abi : KernelAbi}.

(** C8, in the order of the code: on a ring that was created,
    [io_uring_queue_exit] unmaps the entry array, sized by the count
    read through [kring_entries]; then the submission-side region; then
    the completion-side region, when its base differs from the
    submission side's; and then closes the descriptor. *)
Theorem queue_exit_calls (entries : Z) (ring : io_uring)
    (p : io_uring_params) (w : world)
    (ring' : io_uring) (p' : io_uring_params) (w1 w2 : world) :
  io_uring_queue_init_params entries ring p w = (0, ring', p', w1) ->
  trace (snd (io_uring_queue_exit ring' w2))
  = trace w2
    ++ [EvMunmap (sq_sqes (sq ring'))
          (u64 (u32 (shared w2 (sq_kring_entries (sq ring'))) * sizeof_sqe));
        EvMunmap (sq_ring_ptr (sq ring')) (sq_ring_sz (sq ring'))]
    ++ (if negb (cq_ring_ptr (cq ring') =? sq_ring_ptr (sq ring'))
        then [EvMunmap (cq_ring_ptr (cq ring')) (cq_ring_sz (cq ring'))]
        else [])
    ++ [EvClose (ring_fd ring')]
  /\ ~ In (ring_fd ring') (fds (snd (io_uring_queue_exit ring' w2))).
Proof.
  intros Hinit.
  destruct (queue_init_params_made _ _ _ _ _ _ _ Hinit)
    as (_ & _ & _ & _ & _ & _ & (_ & _ & Hcq) & _).
  split.
  - rewrite queue_exit_trace. unfold teardown_calls.
    assert ((cq_ring_ptr (cq ring') =? NULL) = false) as ->
      by (apply Z.eqb_neq; unfold NULL; lia).
    reflexivity.
  - rewrite queue_exit_fds. intros H. apply filter_In in H.
    destruct H as [_ H]. rewrite Z.eqb_refl in H. discriminate.
Qed.

End TeardownOrder.

Lemma queue_exit_calls_witness :
  trace (snd (io_uring_queue_exit (abi := linux_abi) demo_ring
                demo_ring_world))
  = trace demo_ring_world
    ++ [EvMunmap 12288 512; EvMunmap 4096 608; EvMunmap 8192 576; EvClose 3].
Proof.
  destruct (queue_exit_calls (abi := linux_abi) 8 zero_ring zero_params
              (granting_world 0) demo_ring (snd (fst demo_created))
              demo_ring_world demo_ring_world
              ltac:(vm_compute; reflexivity)) as [T _].
  rewrite T. vm_compute. reflexivity.
Defined.

Section MoreEstimator.
Context {abi : KernelAbi}.

(** A ring that was created is advised in full when [madvise] succeeds:
    the result is 0 and the regions advised are the mappings the ring
    holds, the entry array with the length it was mapped with. *)
Theorem dontfork_created_ring (entries : Z) (ring : io_uring)
    (p : io_uring_params) (w : world)
    (ring' : io_uring) (p' : io_uring_params) (w1 : world)
    (a : advice_world) (rest : list (option positive)) :
  mmap_fresh 3 w = true -> entries_reported w = true ->
  io_uring_queue_init_params entries ring p w = (0, ring', p', w1) ->
  host a = w1 -> madvise_oracle a = None :: None :: None :: rest ->
  fst (io_uring_ring_dontfork ring' a) = 0
  /\ madvise_calls (snd (io_uring_ring_dontfork ring' a))
     = madvise_calls a
       ++ map (fun m => (fst m, snd m, 0))
              (ring_regions ring' (sq_entries p'))
  /\ (forall m, In m (ring_regions ring' (sq_entries p'))
                <-> In m (ring_mappings (sq ring') (cq ring') (sqes_len p')))
  /\ mappings w1
     = mappings w ++ ring_mappings (sq ring') (cq ring') (sqes_len p').
Proof.
  intros Hfresh Hrep Hinit Hhost Hor.
  destruct (queue_init_params_made _ _ _ _ _ _ _ Hinit)
    as ((fd & rest0 & Hso & _ & _) & _ & _ & R1 & _ & _ & (P1 & P2 & P3) & Hmade).
  destruct (Hmade Hfresh) as (Hsh & (a1 & rest' & Hmo & Hptr) & Hm & _).
  destruct (dontfork_plan ring' a) as (E1 & E2 & _);
    [unfold NULL; lia | unfold NULL; lia | unfold NULL; lia |].
  assert (Hn : u32 (shared (host a) (sq_kring_entries (sq ring')))
               = sq_entries p').
  { rewrite Hhost, Hsh.
    pose proof (f_equal sq_kring_entries R1) as Ek. cbn in Ek.
    rewrite <- Ek, Hptr.
    unfold entries_reported in Hrep. rewrite Hso, Hmo in Hrep.
    apply Z.eqb_eq. exact Hrep. }
  cbv zeta in E1, E2. rewrite Hn, Hor in E1, E2.
  rewrite E1, E2.
  split; [unfold ring_regions;
          destruct (negb (cq_ring_ptr (cq ring') =? sq_ring_ptr (sq ring')));
          reflexivity |].
  split; [unfold ring_regions;
          destruct (negb (cq_ring_ptr (cq ring') =? sq_ring_ptr (sq ring')));
          reflexivity |].
  split; [| exact Hm].
  intros m. unfold ring_regions, ring_mappings, sqes_len.
  destruct (negb (cq_ring_ptr (cq ring') =? sq_ring_ptr (sq ring')));
    cbn; tauto.
Qed.

(** [io_uring_mlock_size] passes no completion size, so with the
    explicit-completion-size flag among its flags it fails with
    [-EINVAL] once the throw-away ring has been examined. *)
Theorem mlock_size_cqsize_rejected (entries flags : Z)
    (ring : io_uring) (w : world)
    (r : Z) (ring' : io_uring) (lp : io_uring_params) (w1 : world) :
  io_uring_queue_init_params entries ring zero_params w = (r, ring', lp, w1) ->
  0 <= r ->
  has_flag (features lp) IORING_FEAT_NATIVE_WORKERS = false ->
  0 <= entries ->
  has_flag flags IORING_SETUP_CQSIZE = true ->
  fst (io_uring_mlock_size entries flags ring w) = - EINVAL.
Proof.
  intros Hinit Hr Hnat He Hcq. unfold io_uring_mlock_size.
  rewrite (mlock_size_params_steps _ _ _ _ _ _ _ _ Hinit Hr Hnat He).
  unfold estimator_depths. cbn [p_flags cq_entries]. rewrite Hcq.
  destruct (clamp_depth _ KERN_MAX_ENTRIES entries); reflexivity.
Qed.

(** The estimate depends on an in-range depth only through its rounding:
    asking for [entries] and asking for [roundup_pow2 entries] give the
    same result. *)
Theorem mlock_size_by_rounding (entries : Z) (p : io_uring_params)
    (ring : io_uring) (w : world)
    (r1 r2 : Z) (g1 g2 : io_uring) (lp1 lp2 : io_uring_params)
    (w1 w2 : world) :
  1 <= entries <= KERN_MAX_ENTRIES ->
  io_uring_queue_init_params entries ring zero_params w = (r1, g1, lp1, w1) ->
  io_uring_queue_init_params (roundup_pow2 entries) ring zero_params w
    = (r2, g2, lp2, w2) ->
  0 <= r1 -> 0 <= r2 ->
  has_flag (features lp1) IORING_FEAT_NATIVE_WORKERS = false ->
  has_flag (features lp2) IORING_FEAT_NATIVE_WORKERS = false ->
  fst (io_uring_mlock_size_params entries p ring w)
  = fst (io_uring_mlock_size_params (roundup_pow2 entries) p ring w).
Proof.
  intros He H1 H2 Hr1 Hr2 Hn1 Hn2.
  pose proof (roundup_pow2_range entries KERN_MAX_ENTRIES 15
                ltac:(lia) eq_refl He) as Hrange.
  rewrite (mlock_size_params_steps _ p _ _ _ _ _ _ H1 Hr1 Hn1) by lia.
  rewrite (mlock_size_params_steps _ p _ _ _ _ _ _ H2 Hr2 Hn2) by lia.
  assert (Hidem : roundup_pow2 (roundup_pow2 entries) = roundup_pow2 entries).
  { unfold KERN_MAX_ENTRIES in He.
    destruct (roundup_pow2_least entries) as (k & Hk & E & _); [lia |].
    rewrite E. apply roundup_pow2_of_pow2. exact Hk. }
  unfold estimator_depths, clamp_depth.
  destruct (Z.eqb_spec entries 0); [lia |].
  destruct (Z.eqb_spec (roundup_pow2 entries) 0); [lia |].
  destruct (Z.ltb_spec KERN_MAX_ENTRIES entries); [lia |].
  destruct (Z.ltb_spec KERN_MAX_ENTRIES (roundup_pow2 entries)); [lia |].
  cbv zeta. rewrite Hidem. reflexivity.
Qed.

(** Leaving the completion size out is the same as giving twice the
    rounded submission depth: for an in-range depth, options without the
    explicit-completion-size flag and options with it and that size give
    the same estimate. *)
Theorem mlock_size_default_cq (entries : Z) (p q : io_uring_params)
    (ring : io_uring) (w : world)
    (r : Z) (ring' : io_uring) (lp : io_uring_params) (w1 : world) :
  1 <= entries <= KERN_MAX_ENTRIES ->
  io_uring_queue_init_params entries ring zero_params w = (r, ring', lp, w1) ->
  0 <= r ->
  has_flag (features lp) IORING_FEAT_NATIVE_WORKERS = false ->
  has_flag (p_flags p) IORING_SETUP_CQSIZE = false ->
  has_flag (p_flags q) IORING_SETUP_CQSIZE = true ->
  cq_entries q = 2 * roundup_pow2 entries ->
  fst (io_uring_mlock_size_params entries p ring w)
  = fst (io_uring_mlock_size_params entries q ring w).
Proof.
  intros He Hinit Hr Hnat Hp Hq Hcq.
  pose proof (roundup_pow2_range entries KERN_MAX_ENTRIES 15
                ltac:(lia) eq_refl He) as Hrange.
  rewrite (mlock_size_params_steps _ p _ _ _ _ _ _ Hinit Hr Hnat) by lia.
  rewrite (mlock_size_params_steps _ q _ _ _ _ _ _ Hinit Hr Hnat) by lia.
  unfold KERN_MAX_ENTRIES in He, Hrange.
  destruct (roundup_pow2_least entries) as (k & Hk & E & _); [lia |].
  assert (Hk15 : k <= 15).
  { destruct (Z.le_gt_cases k 15) as [? | Hgt]; [assumption |].
    assert (2 ^ 16 <= 2 ^ k) by (apply Z.pow_le_mono_r; lia).
    change (2 ^ 16) with 65536 in *. lia. }
  assert (Hdouble : roundup_pow2 (2 * roundup_pow2 entries)
                    = 2 * roundup_pow2 entries).
  { rewrite E. rewrite <- Z.pow_succ_r by lia.
    apply roundup_pow2_of_pow2. lia. }
  unfold estimator_depths, clamp_depth. rewrite Hp, Hq, Hcq.
  destruct (Z.eqb_spec entries 0); [lia |].
  destruct (Z.ltb_spec KERN_MAX_ENTRIES entries);
    [unfold KERN_MAX_ENTRIES in *; lia |].
  cbv zeta.
  destruct (Z.eqb_spec (2 * roundup_pow2 entries) 0); [lia |].
  destruct (Z.ltb_spec KERN_MAX_CQ_ENTRIES (2 * roundup_pow2 entries));
    [unfold KERN_MAX_CQ_ENTRIES, KERN_MAX_ENTRIES in *; lia |].
  rewrite Hdouble.
  destruct (Z.ltb_spec (2 * roundup_pow2 entries) (roundup_pow2 entries));
    [lia | reflexivity].
Qed.

End MoreEstimator.

(** ** Further properties *)

(** Rounding up to a power of two keeps the order of its arguments. *)
Theorem roundup_pow2_monotone (a b : Z) :
  1 <= a <= b -> b <= 2 ^ 31 -> roundup_pow2 a <= roundup_pow2 b.
Proof.
  intros Hab Hb.
  destruct (roundup_pow2_shift a) as [Ea Ha]; [lia |].
  destruct (roundup_pow2_shift b) as [Eb Hfb]; [lia |].
  rewrite Ea, Eb. apply Z.pow_le_mono_r; [lia |].
  apply fls_le_mono; lia.
Qed.

Lemma roundup_pow2_monotone_witness : roundup_pow2 5 <= roundup_pow2 9.
Proof. exact (roundup_pow2_monotone 5 9 ltac:(lia) ltac:(lia)). Defined.

Section MoreFacts.
Context {abi : KernelAbi}.

Lemma region_lengths_no_wrap (p : io_uring_params) :
  0 <= sq_entries p < 2 ^ 32 -> 0 <= cq_entries p < 2 ^ 32 ->
  0 <= sqo_array (sq_off p) < 2 ^ 32 -> 0 <= cqo_cqes (cq_off p) < 2 ^ 32 ->
  abi_sizes_ok ->
  sq_region_len p = sqo_array (sq_off p) + sq_entries p * 4
  /\ cq_region_len p = cqo_cqes (cq_off p) + cq_entries p * sizeof_cqe
  /\ sqes_len p = sq_entries p * sizeof_sqe.
Proof.
  intros Hs Hc Ha Hq [[S1 S2] [C1 C2]].
  unfold sq_region_len, cq_region_len, sqes_len, sizeof_unsigned, u64.
  assert (0 <= cq_entries p * sizeof_cqe < 2 ^ 44) by nia.
  assert (0 <= sq_entries p * sizeof_sqe < 2 ^ 44) by nia.
  rewrite (Z.mod_small (sq_entries p * 4)) by lia.
  rewrite (Z.mod_small (cq_entries p * sizeof_cqe)) by lia.
  rewrite !Z.mod_small by lia. auto.
Qed.

Lemma io_uring_mmap_calls (fd : Z) (p : io_uring_params)
    (s : io_uring_sq) (c : io_uring_cq) (w : world)
    (s' : io_uring_sq) (c' : io_uring_cq) (w1 : world) :
  io_uring_mmap fd p s c w = (0, s', c', w1) ->
  let single := has_flag (features p) IORING_FEAT_SINGLE_MMAP in
  sq_ring_sz s'
  = (if single then Z.max (sq_region_len p) (cq_region_len p)
     else sq_region_len p)
  /\ cq_ring_sz c'
     = (if single then Z.max (sq_region_len p) (cq_region_len p)
        else cq_region_len p)
  /\ trace w1
     = trace w
       ++ [EvMmap (sq_ring_sz s') fd IORING_OFF_SQ_RING (sq_ring_ptr s')]
       ++ (if single then []
           else [EvMmap (cq_ring_sz c') fd IORING_OFF_CQ_RING
                   (cq_ring_ptr c')])
       ++ [EvMmap (sqes_len p) fd IORING_OFF_SQES (sq_sqes s')].
Proof.
  unfold io_uring_mmap. cbv zeta.
  fold (sq_region_len p). fold (cq_region_len p). fold (sqes_len p).
  set (s1 := set_sq_ring_sz s (sq_region_len p)).
  set (c1 := set_cq_ring_sz c (cq_region_len p)).
  set (s2 := if has_flag _ _ then _ else s1).
  set (c2 := if has_flag _ _ then _ else c1).
  assert (Hs2 : sq_ring_sz s2
                = if has_flag (features p) IORING_FEAT_SINGLE_MMAP
                  then Z.max (sq_region_len p) (cq_region_len p)
                  else sq_region_len p).
  { unfold s2, s1. destruct (has_flag _ _); [| reflexivity]. cbn.
    destruct (Z.ltb_spec (sq_region_len p) (cq_region_len p)); cbn; lia. }
  assert (Hc2 : cq_ring_sz c2
                = if has_flag (features p) IORING_FEAT_SINGLE_MMAP
                  then Z.max (sq_region_len p) (cq_region_len p)
                  else cq_region_len p).
  { unfold c2. destruct (has_flag _ _) eqn:F; [| reflexivity].
    cbn [cq_ring_sz set_cq_ring_sz]. rewrite Hs2, ?F. reflexivity. }
  clearbody s2 c2. clear s1 c1.
  destruct w as [so mo mao po ps sh er maps fdl tr].
  destruct (has_flag (features p) IORING_FEAT_SINGLE_MMAP);
  destruct mo as [|[a1|e1] [|[a2|e2] [|[a3|e3] mo]]]; run_mmap.
  all: rewrite ?Pos.eqb_refl.
  all: cbn -[Z.mul Z.add Z.ltb sqes_len mapping_eqb filter].
  all: try (intros H; exfalso; revert H;
            repeat match goal with
                   | |- context [if ?b then _ else _] => destruct b
                   end; cbn; intros H; inversion H; fail).
  all: intros H; inversion H; subst; clear H.
  all: cbn -[Z.mul Z.add Z.ltb sqes_len mapping_eqb filter].
  all: rewrite <- ?app_assoc; cbn [app].
  all: split; [exact Hs2 |]; split; [exact Hc2 |]; reflexivity.
Qed.

(** For 32-bit counts and offsets a successful [io_uring_mmap] asks for
    its mappings with lengths computed without wrap-around: the
    submission ring with the array offset plus four bytes per entry, the
    completion ring with the records' offset plus one record per entry
    (one mapping of the larger of the two when they are shared), and the
    entry array with one entry record per submission entry. *)
Theorem region_lengths_exact (fd : Z) (p : io_uring_params)
    (s : io_uring_sq) (c : io_uring_cq) (w : world)
    (s' : io_uring_sq) (c' : io_uring_cq) (w1 : world) :
  0 <= sq_entries p < 2 ^ 32 -> 0 <= cq_entries p < 2 ^ 32 ->
  0 <= sqo_array (sq_off p) < 2 ^ 32 -> 0 <= cqo_cqes (cq_off p) < 2 ^ 32 ->
  abi_sizes_ok ->
  io_uring_mmap fd p s c w = (0, s', c', w1) ->
  let sq_len := sqo_array (sq_off p) + sq_entries p * 4 in
  let cq_len := cqo_cqes (cq_off p) + cq_entries p * sizeof_cqe in
  let sqes := sq_entries p * sizeof_sqe in
  if has_flag (features p) IORING_FEAT_SINGLE_MMAP then
    sq_ring_sz s' = Z.max sq_len cq_len
    /\ cq_ring_sz c' = Z.max sq_len cq_len
    /\ trace w1
       = trace w
         ++ [EvMmap (Z.max sq_len cq_len) fd IORING_OFF_SQ_RING
               (sq_ring_ptr s');
             EvMmap sqes fd IORING_OFF_SQES (sq_sqes s')]
  else
    sq_ring_sz s' = sq_len /\ cq_ring_sz c' = cq_len
    /\ trace w1
       = trace w
         ++ [EvMmap sq_len fd IORING_OFF_SQ_RING (sq_ring_ptr s');
             EvMmap cq_len fd IORING_OFF_CQ_RING (cq_ring_ptr c');
             EvMmap sqes fd IORING_OFF_SQES (sq_sqes s')].
Proof.
  intros Hs Hc Ha Hq Habi Hrun.
  destruct (region_lengths_no_wrap p Hs Hc Ha Hq Habi) as (E1 & E2 & E3).
  destruct (io_uring_mmap_calls _ _ _ _ _ _ _ _ Hrun) as (L1 & L2 & T).
  cbv zeta in *. rewrite E1, E2 in L1, L2. rewrite E3 in T.
  destruct (has_flag (features p) IORING_FEAT_SINGLE_MMAP);
    rewrite ?L1, ?L2 in T; cbn [app] in T; auto.
Qed.

(** Whatever the caller's options, the throw-away ring is requested with
    the caller's [entries] and no flags; when the kernel refuses it, the
    estimator returns the negated [errno] and makes no other call. *)
Theorem mlock_size_setup_refused (entries : Z) (p : io_uring_params)
    (ring : io_uring) (w : world) (e : positive)
    (rest : list setup_outcome) :
  setup_oracle w = SetupFail e :: rest ->
  io_uring_mlock_size_params entries p ring w
  = (- Z.pos e,
     fail_with e (EvSetup entries 0 (-1)) (set_setup_oracle rest w)).
Proof.
  intros Hso.
  unfold io_uring_mlock_size_params, io_uring_queue_init_params, bind,
    __sys_io_uring_setup, get_errno, ret.
  rewrite Hso. reflexivity.
Qed.

(** Fetching a probe and releasing the result with
    [io_uring_free_probe] frees every block that was allocated, once. *)
Theorem probe_alloc_balanced (ring : io_uring) (w : world) :
  let '(probe, w1) := io_uring_get_probe_ring ring w in
  let w2 := snd (io_uring_free_probe probe w1) in
  exists evs,
    trace w2 = trace w ++ evs
    /\ flat_map freed evs = flat_map allocated evs.
Proof.
  unfold io_uring_get_probe_ring, io_uring_free_probe, bind, malloc,
    io_uring_register_probe, free, ret. cbv zeta.
  destruct w as [so mo mao po ps sh er maps fdl tr]. cbn.
  destruct mao as [| [blk |] mao]; cbn.
  - eexists. rewrite <- !app_assoc. split; reflexivity.
  - destruct po as [| q po]; cbn.
    + eexists. rewrite <- !app_assoc. split; reflexivity.
    + destruct (0 <=? q); cbn; eexists; rewrite <- !app_assoc;
        split; reflexivity.
  - eexists. rewrite <- !app_assoc. split; reflexivity.
Qed.

End MoreFacts.

(** ** The further properties at concrete inputs *)

Lemma region_lengths_exact_witness :
  trace (snd (io_uring_mmap (abi := linux_abi) 3 (demo_params 0)
                zero_sq zero_cq (granting_world 0)))
  = [EvMmap (576 + 8 * 4) 3 0 4096; EvMmap (320 + 16 * 16) 3 0x8000000 8192;
     EvMmap (8 * 64) 3 0x10000000 12288].
Proof.
  set (X := io_uring_mmap (abi := linux_abi) 3 (demo_params 0)
              zero_sq zero_cq (granting_world 0)).
  pose proof (region_lengths_exact (abi := linux_abi) 3 (demo_params 0)
                zero_sq zero_cq (granting_world 0)
                (snd (fst (fst X))) (snd (fst X)) (snd X)
                ltac:(vm_compute; intuition discriminate)
                ltac:(vm_compute; intuition discriminate)
                ltac:(vm_compute; intuition discriminate)
                ltac:(vm_compute; intuition discriminate)
                ltac:(vm_compute; intuition discriminate)
                ltac:(vm_compute; reflexivity)) as H.
  cbv zeta in H.
  change (has_flag (features (demo_params 0))
            (IORING_FEAT_SINGLE_MMAP (KernelAbi := linux_abi))) with false in H.
  destruct H as (_ & _ & T). rewrite T. vm_compute. reflexivity.
Defined.

Lemma mlock_size_setup_refused_witness :
  fst (io_uring_mlock_size_params (abi := linux_abi) 40000 (params_with 16 0)
         zero_ring rejecting_world) = -22.
Proof.
  rewrite (mlock_size_setup_refused (abi := linux_abi) 40000
             (params_with 16 0) zero_ring rejecting_world 22 [] eq_refl).
  reflexivity.
Defined.

Lemma queue_init_params_failure_clean_witness :
  let I := io_uring_queue_init_params (abi := linux_abi) 8 zero_ring
             zero_params half_mapping_world in
  fst (fst (fst I)) < 0
  /\ mappings (snd I) = [] /\ fds (snd I) = [0; 1; 2].
Proof.
  intros I.
  exact (queue_init_params_failure_clean (abi := linux_abi) 8 zero_ring
           zero_params half_mapping_world
           (fst (fst (fst I))) (snd (fst (fst I))) (snd (fst I)) (snd I)
           ltac:(vm_compute; reflexivity) ltac:(vm_compute; reflexivity)
           ltac:(vm_compute; reflexivity) ltac:(vm_compute; discriminate)).
Defined.

Lemma queue_init_params_resolves_witness :
  sq_kring_entries (sq demo_ring) = 4096 + 264
  /\ cq_cqes (cq demo_ring) = 8192 + 320.
Proof.
  pose proof (queue_init_params_resolves (abi := linux_abi) 8 zero_ring
                zero_params (granting_world 0)
                demo_ring (snd (fst demo_created)) demo_ring_world
                ltac:(vm_compute; reflexivity)) as H.
  cbv zeta in H.
  destruct H as (_ & _ & _ & (_ & _ & _ & E1 & _) & (_ & _ & _ & _ & _ & E2 & _) & _).
  rewrite E1, E2. vm_compute. split; reflexivity.
Defined.

Lemma queue_init_exit_roundtrip_witness :
  mappings (snd (io_uring_queue_exit (abi := linux_abi) demo_ring
                   demo_ring_world)) = []
  /\ fds (snd (io_uring_queue_exit (abi := linux_abi) demo_ring
                 demo_ring_world)) = [0; 1; 2].
Proof.
  exact (proj2 (proj2
    (queue_init_exit_roundtrip (abi := linux_abi) 8 zero_ring zero_params
       (granting_world 0) demo_ring (snd (fst demo_created)) demo_ring_world
       ltac:(vm_compute; reflexivity) ltac:(vm_compute; reflexivity)
       ltac:(vm_compute; reflexivity) ltac:(vm_compute; reflexivity)))).
Defined.

Lemma get_probe_leaves_nothing_witness :
  mappings (snd (io_uring_get_probe (abi := linux_abi) zero_ring
                   (granting_world 0))) = []
  /\ fds (snd (io_uring_get_probe (abi := linux_abi) zero_ring
                 (granting_world 0))) = [0; 1; 2].
Proof.
  exact (get_probe_leaves_nothing (abi := linux_abi) zero_ring
           (granting_world 0)
           ltac:(vm_compute; reflexivity) ltac:(vm_compute; reflexivity)
           ltac:(vm_compute; reflexivity)).
Defined.

Lemma mlock_size_leaves_nothing_witness :
  mappings (snd (io_uring_mlock_size_params (abi := linux_abi) 5
                   (params_with 0 0) zero_ring (granting_world 0))) = []
  /\ fds (snd (io_uring_mlock_size_params (abi := linux_abi) 5
                 (params_with 0 0) zero_ring (granting_world 0))) = [0; 1; 2].
Proof.
  exact (mlock_size_leaves_nothing (abi := linux_abi) 5 (params_with 0 0)
           zero_ring (granting_world 0)
           ltac:(vm_compute; reflexivity) ltac:(vm_compute; reflexivity)
           ltac:(vm_compute; reflexivity)).
Defined.

Lemma dontfork_created_ring_witness :
  fst (io_uring_ring_dontfork (abi := linux_abi) demo_ring
         (advising demo_ring_world 3)) = 0.
Proof.
  exact (proj1
    (dontfork_created_ring (abi := linux_abi) 8 zero_ring zero_params
       (granting_world 0) demo_ring (snd (fst demo_created)) demo_ring_world
       (advising demo_ring_world 3) []
       ltac:(vm_compute; reflexivity) ltac:(vm_compute; reflexivity)
       ltac:(vm_compute; reflexivity) ltac:(vm_compute; reflexivity)
       ltac:(vm_compute; reflexivity))).
Defined.

Lemma mlock_size_cqsize_rejected_witness :
  fst (io_uring_mlock_size (abi := linux_abi) 8 8 zero_ring
         (granting_world 0)) = - EINVAL.
Proof.
  set (I := io_uring_queue_init_params (abi := linux_abi) 8 zero_ring
              zero_params (granting_world 0)).
  exact (mlock_size_cqsize_rejected (abi := linux_abi) 8 8 zero_ring
           (granting_world 0)
           (fst (fst (fst I))) (snd (fst (fst I))) (snd (fst I)) (snd I)
           ltac:(vm_compute; reflexivity) ltac:(vm_compute; discriminate)
           ltac:(vm_compute; reflexivity) ltac:(lia)
           ltac:(vm_compute; reflexivity)).
Defined.

Lemma mlock_size_by_rounding_witness :
  fst (io_uring_mlock_size_params (abi := linux_abi) 5 (params_with 0 0)
         zero_ring (granting_world 0))
  = fst (io_uring_mlock_size_params (abi := linux_abi) (roundup_pow2 5)
           (params_with 0 0) zero_ring (granting_world 0)).
Proof.
  set (I := io_uring_queue_init_params (abi := linux_abi) 5 zero_ring
              zero_params (granting_world 0)).
  set (J := io_uring_queue_init_params (abi := linux_abi) (roundup_pow2 5)
              zero_ring zero_params (granting_world 0)).
  exact (mlock_size_by_rounding (abi := linux_abi) 5 (params_with 0 0)
           zero_ring (granting_world 0)
           (fst (fst (fst I))) (fst (fst (fst J)))
           (snd (fst (fst I))) (snd (fst (fst J)))
           (snd (fst I)) (snd (fst J)) (snd I) (snd J)
           ltac:(vm_compute; intuition discriminate)
           ltac:(vm_compute; reflexivity) ltac:(vm_compute; reflexivity)
           ltac:(vm_compute; discriminate) ltac:(vm_compute; discriminate)
           ltac:(vm_compute; reflexivity) ltac:(vm_compute; reflexivity)).
Defined.

Lemma mlock_size_default_cq_witness :
  fst (io_uring_mlock_size_params (abi := linux_abi) 5 (params_with 0 0)
         zero_ring (granting_world 0))
  = fst (io_uring_mlock_size_params (abi := linux_abi) 5 (params_with 8 16)
           zero_ring (granting_world 0)).
Proof.
  set (I := io_uring_queue_init_params (abi := linux_abi) 5 zero_ring
              zero_params (granting_world 0)).
  exact (mlock_size_default_cq (abi := linux_abi) 5 (params_with 0 0)
           (params_with 8 16) zero_ring (granting_world 0)
           (fst (fst (fst I))) (snd (fst (fst I))) (snd (fst I)) (snd I)
           ltac:(vm_compute; intuition discriminate)
           ltac:(vm_compute; reflexivity) ltac:(vm_compute; discriminate)
           ltac:(vm_compute; reflexivity) ltac:(vm_compute; reflexivity)
           ltac:(vm_compute; reflexivity) ltac:(vm_compute; reflexivity)).
Defined.
